(** * JPYC dashboard: the fetch / normalise / aggregate pipeline of [app.py]

    A shallow embedding of the pure part of [app.py]: the address check, the
    paging loop and the normaliser of [fetch_tokentx_cached], and the two
    aggregations (daily IN/OUT pivot, counterparty ranking) of the page body.

    Conventions of the model.
    - A Python [str] is a [string]; a character is its code point, so the
      model covers the code points below 256.
    - Python [int] is [Z].  Columns that pandas stores as [int64] are [Z]
      together with the explicit two's-complement wrap [wrap64].
    - A [float64] column is modelled by the exact value it rounds: a rational,
      or one of the three non-finite values.  Rounding to the nearest double is
      not modelled.
    - The explorer is a function from the page number to the reply of the one
      HTTP request the loop makes for that page.  [time.sleep] and the 60 s
      memoisation of [st.cache_data] do not change the value computed and are
      left out.
    - [sort_values] is taken by its contract (a descending rearrangement):
      the code calls it with the default [kind="quicksort"], which pandas
      does not document as stable. *)

From Stdlib Require Import ZArith QArith List Bool Ascii String Lia.
From Stdlib Require Import Permutation Sorted.
Import ListNotations.

Local Open Scope string_scope.
Local Open Scope list_scope.
Local Open Scope Z_scope.

(* ------------------------------------------------------------------ *)
(** ** Strings *)

(** [str.isspace] on one character, for the code points below 256. *)
Definition isspace (c : ascii) : bool :=
  let n := nat_of_ascii c in
  ((9 <=? n) && (n <=? 13) || (28 <=? n) && (n <=? 32)
   || (n =? 133) || (n =? 160))%nat.

Fixpoint lstrip (s : string) : string :=
  match s with
  | EmptyString => EmptyString
  | String c s' => if isspace c then lstrip s' else s
  end.

Fixpoint rstrip (s : string) : string :=
  match s with
  | EmptyString => EmptyString
  | String c s' =>
      match rstrip s' with
      | EmptyString => if isspace c then EmptyString else String c EmptyString
      | t => String c t
      end
  end.

(** [s.strip()] *)
Definition strip (s : string) : string := rstrip (lstrip s).

(** [s.startswith(p)] *)
Definition startswith (s p : string) : bool := prefix p s.

(** [len(s)] as a Python integer. *)
Definition len (s : string) : Z := Z.of_nat (String.length s).

(** [c.lower()] for one character below 256: the ASCII capitals and the
    Latin-1 capitals (all of 192..222 but the multiplication sign 215). *)
Definition lower_char (c : ascii) : ascii :=
  let n := nat_of_ascii c in
  if ((65 <=? n) && (n <=? 90)
      || (192 <=? n) && (n <=? 222) && negb (n =? 215))%nat
  then ascii_of_nat (n + 32) else c.

(** [s.lower()] *)
Fixpoint lower (s : string) : string :=
  match s with
  | EmptyString => EmptyString
  | String c s' => String (lower_char c) (lower s')
  end.

(** [needle in hay] on strings. *)
Fixpoint contains (needle hay : string) : bool :=
  prefix needle hay
  || match hay with
     | EmptyString => false
     | String _ hay' => contains needle hay'
     end.

(* ------------------------------------------------------------------ *)
(** ** Address check (app.py, [is_valid_address])

    [addr or ""] is the identity on a [str], which is what every caller
    passes. *)
Definition is_valid_address (addr : string) : bool :=
  let addr := strip addr in
  startswith addr "0x" && (len addr =? 42).

Definition is_hex_digit (c : ascii) : bool :=
  let n := nat_of_ascii c in
  ((48 <=? n) && (n <=? 57) || (65 <=? n) && (n <=? 70)
   || (97 <=? n) && (n <=? 102))%nat.

Fixpoint all_chars (p : ascii -> bool) (s : string) : bool :=
  match s with
  | EmptyString => true
  | String c s' => p c && all_chars p s'
  end.

(** The address format in the words of the specification: ["0x"] followed by
    exactly 40 hexadecimal characters.  This is the specification's
    predicate, not code of [app.py]. *)
Definition spec_wallet_address (s : string) : bool :=
  match s with
  | String "0" (String "x" rest) =>
      (String.length rest =? 40)%nat && all_chars is_hex_digit rest
  | _ => false
  end.

(* ------------------------------------------------------------------ *)
(** ** Numbers *)

Definition wrap64 (z : Z) : Z := (z + 2 ^ 63) mod 2 ^ 64 - 2 ^ 63.

(** A [float64] value, kept exact. *)
Inductive f64 : Type :=
| Fin (q : Q)
| PInf
| NInf
| NaN.

(** [a / b] on two [int64] columns (true division). *)
Definition truediv (a b : Z) : f64 :=
  if b =? 0 then
    (if a =? 0 then NaN else if 0 <? a then PInf else NInf)
  else Fin (inject_Z a / inject_Z b).

(** Unary minus on a float. *)
Definition fneg (x : f64) : f64 :=
  match x with
  | Fin q => Fin (- q)
  | PInf => NInf
  | NInf => PInf
  | NaN => NaN
  end.

(** [x >= 0] on floats (false on NaN). *)
Definition f_nonneg (x : f64) : Prop :=
  match x with
  | Fin q => (0 <= q)%Q
  | PInf => True
  | NInf | NaN => False
  end.

(** Equality of float values (rationals up to [Qeq]). *)
Definition f_eq (x y : f64) : Prop :=
  match x, y with
  | Fin p, Fin q => (p == q)%Q
  | PInf, PInf | NInf, NInf => True
  | _, _ => False
  end.

Definition digit_val (c : ascii) : option Z :=
  let n := nat_of_ascii c in
  if ((48 <=? n) && (n <=? 57))%nat then Some (Z.of_nat (n - 48)) else None.

Fixpoint parse_digits (acc : Z) (s : string) : option Z :=
  match s with
  | EmptyString => Some acc
  | String c s' =>
      match digit_val c with
      | Some d => parse_digits (10 * acc + d) s'
      | None => None
      end
  end.

Definition parse_nat (s : string) : option Z :=
  match s with
  | EmptyString => None
  | _ => parse_digits 0 s
  end.

(** A decimal integer literal with an optional sign, the form in which the
    explorer sends every number.  Other numeric texts that pandas would
    accept (white space around the number, floating literals) are outside
    the model and count as unparsable. *)
Definition parse_int (s : string) : option Z :=
  match s with
  | String "-" s' => option_map Z.opp (parse_nat s')
  | String "+" s' => parse_nat s'
  | _ => parse_nat s
  end.

(* ------------------------------------------------------------------ *)
(** ** The explorer's replies *)

(** One raw transfer: a JSON object whose values are strings. *)
Definition RawRecord : Type := list (string * string).

(** A cell of the data frame built from the records: [None] is the NaN that
    pandas puts where a record lacks the column. *)
Fixpoint cell (key : string) (r : RawRecord) : option string :=
  match r with
  | [] => None
  | (k, v) :: r' => if String.eqb k key then Some v else cell key r'
  end.

(** The [result] field of a decoded body. [data.get("result")] is [None]
    both for JSON null and for a body without the field. *)
Inductive ResultField : Type :=
| RNull
| RStr (s : string)
| RList (records : list RawRecord)
| ROther (repr : string).      (* number, boolean or object *)

Record Response : Type := mkResponse {
  status : option string;
  message : option string;
  result : ResultField }.

(** What [etherscan_v2_get] does for one request: it raises (transport
    failure, non-2xx status, undecodable body) or returns the decoded body
    and the resolved URL. *)
Inductive HttpReply : Type :=
| HttpRaise (what : string)
| HttpOk (data : Response) (url : string).

Definition Upstream : Type := Z -> HttpReply.

(** [normalize_etherscan_error]: the three fields that the formatted text
    [status=... message=... result=...] interpolates. *)
Record ErrorText : Type := mkErrorText {
  e_status : option string;
  e_message : option string;
  e_result : ResultField }.

Definition normalize_etherscan_error (data : Response) : ErrorText :=
  mkErrorText (status data) (message data) (result data).

Inductive Error : Type :=
| TransportError (what : string)
| NullResult (detail : ErrorText) (url : string) (full : Response)
| ApiError (detail : ErrorText) (url : string)
| UnexpectedShape (detail : ErrorText) (url : string)
| MissingColumns (missing columns : list string) (sample_row : RawRecord)
| ValueError (what : string).

(* ------------------------------------------------------------------ *)
(** ** The normalised table *)

Inductive Direction : Type := IN | OUT.

Definition Direction_eqb (a b : Direction) : bool :=
  match a, b with
  | IN, IN | OUT, OUT => true
  | _, _ => false
  end.

Record Row : Type := mkRow {
  raw : RawRecord;               (* the columns the explorer sent *)
  timeStamp : Z;                 (* Unix seconds *)
  tokenDecimal : Z;
  value_raw : Z;
  amount : f64;
  direction : Direction;
  signed_amount : f64;
  counterparty : option string }.

(** What [fetch_tokentx_cached] returns: the frame of raw records when it is
    handed back before normalisation ([pd.DataFrame()] is [Raw []]), else the
    normalised rows. *)
Inductive DataFrame : Type :=
| Raw (records : list RawRecord)
| Transfers (rows : list Row).

Definition nrows (df : DataFrame) : nat :=
  match df with
  | Raw records => List.length records
  | Transfers rows => List.length rows
  end.

(* ------------------------------------------------------------------ *)
(** ** The paging loop of [fetch_tokentx_cached] (app.py, lines 107-151) *)

(** The three ways out of the [while True] loop: [break] (the accumulated
    [rows] go on to the normaliser), the early [return pd.DataFrame()], and
    an exception. *)
Inductive LoopExit : Type :=
| Broke (rows : list RawRecord)
| Returned (df : DataFrame)
| Raised (e : Error).

Definition no_transactions : string := "No transactions".

Section Pager.
Variable upstream : Upstream.
Variables offset max_pages : Z.

(** One iteration per unit of fuel; [None] is fuel exhausted. *)
Fixpoint pager_loop (fuel : nat) (page : Z) (rows : list RawRecord)
  : option LoopExit :=
  match fuel with
  | O => None
  | S fuel' =>
      if max_pages <? page then Some (Broke rows)
      else
        match upstream page with
        | HttpRaise what => Some (Raised (TransportError what))
        | HttpOk data url =>
            match result data with
            | RNull =>
                Some (Raised
                  (NullResult (normalize_etherscan_error data) url data))
            | RStr s =>
                if contains no_transactions s
                then Some (Returned (Raw []))
                else Some (Raised
                       (ApiError (normalize_etherscan_error data) url))
            | ROther _ =>
                Some (Raised
                  (UnexpectedShape (normalize_etherscan_error data) url))
            | RList res =>
                match res with
                | [] => Some (Broke rows)
                | _ :: _ =>
                    let rows := rows ++ res in
                    if Z.of_nat (List.length res) <? offset
                    then Some (Broke rows)
                    else pager_loop fuel' (page + 1) rows
                end
            end
        end
  end.

(** The loop as the function runs it: [rows = []], [page = 1].  The page
    number grows by one per iteration and the loop leaves once it passes
    [max_pages], so [max_pages + 1] iterations are enough. *)
Definition pager : option LoopExit :=
  pager_loop (S (Z.to_nat max_pages)) 1 [].
End Pager.

(** The records of a page whose [result] is a list. *)
Definition page_records (upstream : Upstream) (page : Z)
  : option (list RawRecord) :=
  match upstream page with
  | HttpOk data _ =>
      match result data with
      | RList res => Some res
      | _ => None
      end
  | HttpRaise _ => None
  end.

(** A page after which the loop goes on: a non-empty list of no fewer than
    [offset] records. *)
Definition full_page (upstream : Upstream) (offset page : Z) : Prop :=
  exists res, page_records upstream page = Some res
              /\ res <> [] /\ offset <= Z.of_nat (List.length res).


(** The records of the [k] pages [page], [page + 1], ... in fetch order. *)
Fixpoint pages_from (upstream : Upstream) (page : Z) (k : nat)
  : list RawRecord :=
  match k with
  | O => []
  | S k' =>
      match page_records upstream page with
      | Some res => res
      | None => []
      end ++ pages_from upstream (page + 1) k'
  end.

(** The diagnostic detail that an error of the explorer carries: status,
    message, raw result and resolved URL. *)
Definition diagnostic (e : Error)
  : option (option string * option string * ResultField * string) :=
  match e with
  | NullResult d url _ | ApiError d url | UnexpectedShape d url =>
      Some (e_status d, e_message d, e_result d, url)
  | _ => None
  end.

(* ------------------------------------------------------------------ *)
(** ** The normaliser of [fetch_tokentx_cached] (app.py, lines 153-180) *)

Definition required : list string :=
  ["timeStamp"; "value"; "tokenDecimal"; "from"; "to"; "hash"].

(** The distinct items of [l], each at the place of its first occurrence. *)
Fixpoint unique_first (seen l : list string) : list string :=
  match l with
  | [] => []
  | x :: l' =>
      if in_dec string_dec x seen then unique_first seen l'
      else x :: unique_first (x :: seen) l'
  end.

(** [df.columns]: every key that some record has, in order of first
    appearance. *)
Definition columns (rows : list RawRecord) : list string :=
  unique_first [] (List.concat (map (map fst) rows)).

Definition has_column (c : string) (rows : list RawRecord) : bool :=
  existsb (fun r => match cell c r with Some _ => true | None => false end)
          rows.

(** [required - set(df.columns)] *)
Definition missing_columns (rows : list RawRecord) : list string :=
  filter (fun c => negb (has_column c rows)) required.

(** [df.empty]: no row, or no column (every record is the empty object). *)
Definition df_empty (rows : list RawRecord) : bool :=
  forallb (fun r => match r with [] => true | _ :: _ => false end) rows.

(** The digits of a Python integer literal: decimal digits, with single
    underscores allowed between two digits.  [after_digit] tells whether the
    character before was a digit. *)
Fixpoint parse_py_digits (acc : Z) (after_digit : bool) (s : string)
  : option Z :=
  match s with
  | EmptyString => if after_digit then Some acc else None
  | String c s' =>
      match digit_val c with
      | Some d => parse_py_digits (10 * acc + d) true s'
      | None =>
          if Ascii.eqb c "_" && after_digit
          then parse_py_digits acc false s'
          else None
      end
  end.

(** What [int(s)] accepts once the white space around is gone: an optional
    sign and the digits. *)
Definition py_int_literal (s : string) : option Z :=
  match s with
  | String "-" s' => option_map Z.opp (parse_py_digits 0 false s')
  | String "+" s' => parse_py_digits 0 false s'
  | _ => parse_py_digits 0 false s
  end.

(** [int(x)] on a cell: white space around the literal is accepted, NaN and
    any other text raise. *)
Definition py_int (c : option string) : option Z :=
  match c with
  | Some s => py_int_literal (strip s)
  | None => None
  end.

(** The seconds that the [int64] column of [astype(int)] can hold; a larger
    integer raises.  Whether [pd.to_datetime] narrows the range further
    depends on the resolution that the pandas version gives the result, and
    is left out. *)
Definition datetime_in_bounds (t : Z) : bool :=
  (- 2 ^ 63 <=? t) && (t <? 2 ^ 63).

Definition timeStamp_ok (r : RawRecord) : bool :=
  match py_int (cell "timeStamp" r) with
  | Some t => datetime_in_bounds t
  | None => false
  end.

(** [pd.to_numeric(x, errors="coerce")] on one cell: [None] is NaN. *)
Definition to_numeric (c : option string) : option Z :=
  match c with
  | Some s => parse_int s
  | None => None
  end.

(** [.fillna(0)] *)
Definition fillna0 (x : option Z) : Z :=
  match x with
  | Some z => z
  | None => 0
  end.

(** [.astype("int64")] (and [.astype(int)] where C long has 64 bits): the
    identity on the signed range; an unsigned 64-bit value wraps.  Beyond the
    unsigned range pandas goes through [float64] and the cast depends on the
    platform; the model wraps there as well. *)
Definition astype_int64 (z : Z) : Z := wrap64 z.

Definition tokenDecimal_of (r : RawRecord) : Z :=
  astype_int64 (fillna0 (to_numeric (cell "tokenDecimal" r))).

Definition value_raw_of (r : RawRecord) : Z :=
  astype_int64 (fillna0 (to_numeric (cell "value" r))).

(** [10 ** d] on an [int64] column, for [0 <= d]: numpy multiplies in 64
    bits without an overflow check. *)
Definition pow10_int64 (d : Z) : Z := wrap64 (10 ^ d).

(** [str(x)] on a cell. *)
Definition str_cell (c : option string) : string :=
  match c with
  | Some s => s
  | None => "nan"
  end.

Definition direction_of (address : string) (r : RawRecord) : Direction :=
  if String.eqb (lower (str_cell (cell "to" r))) (lower address)
  then IN else OUT.

(** One row of the result, once the column-wise checks have passed. *)
Definition normalize_row (address : string) (r : RawRecord) : Row :=
  let ts := match py_int (cell "timeStamp" r) with
            | Some t => t
            | None => 0
            end in
  let d := tokenDecimal_of r in
  let v := value_raw_of r in
  let a := truediv v (pow10_int64 d) in
  let dir := direction_of address r in
  mkRow r ts d v a dir
        (match dir with IN => a | OUT => fneg a end)
        (match dir with IN => cell "from" r | OUT => cell "to" r end).

(** The code after the loop.  pandas works column by column, so a bad
    [timeStamp] anywhere is reported before a negative [tokenDecimal]
    anywhere ([10 ** d] raises on a negative [d]). *)
Definition normalize (address : string) (rows : list RawRecord)
  : Error + DataFrame :=
  if df_empty rows then inr (Raw rows)
  else
    match missing_columns rows with
    | (_ :: _) as missing =>
        inl (MissingColumns missing (columns rows) (hd [] rows))
    | [] =>
        if negb (forallb timeStamp_ok rows)
        then inl (ValueError "timeStamp")
        else if existsb (fun r => tokenDecimal_of r <? 0) rows
        then inl (ValueError "negative integer power")
        else inr (Transfers (map (normalize_row address) rows))
    end.

(** [fetch_tokentx_cached(chainid, contract, address, apikey, offset, sort,
    max_pages, sleep_s)]: [upstream] stands for the explorer as queried with
    these parameters. *)
Definition fetch_tokentx_cached (upstream : Upstream) (address : string)
    (offset max_pages : Z) : option (Error + DataFrame) :=
  match pager upstream offset max_pages with
  | None => None
  | Some (Broke rows) => Some (normalize address rows)
  | Some (Returned df) => Some (inr df)
  | Some (Raised e) => Some (inl e)
  end.

(* ------------------------------------------------------------------ *)
(** ** Aggregations of the page body (app.py, lines 322-346) *)

Definition is_nan (x : f64) : bool :=
  match x with
  | NaN => true
  | _ => false
  end.

(** Float addition on exact values. *)
Definition fadd (x y : f64) : f64 :=
  match x, y with
  | NaN, _ | _, NaN => NaN
  | Fin p, Fin q => Fin (p + q)
  | PInf, NInf | NInf, PInf => NaN
  | PInf, _ | _, PInf => PInf
  | NInf, _ | _, NInf => NInf
  end.

(** [.sum()] of a group: NaN entries are skipped, the empty sum is 0. *)
Definition fsum (l : list f64) : f64 :=
  fold_left fadd (filter (fun x => negb (is_nan x)) l) (Fin 0).

(** Insertion into an ascending list. *)
Fixpoint insert_asc {A : Type} (leb : A -> A -> bool) (x : A) (l : list A)
  : list A :=
  match l with
  | [] => [x]
  | y :: l' => if leb x y then x :: l else y :: insert_asc leb x l'
  end.

(** The distinct values of [l] in ascending order, the order in which
    pandas lists group keys. *)
Definition sort_unique {A : Type} (dec : forall x y : A, {x = y} + {x <> y})
    (leb : A -> A -> bool) (l : list A) : list A :=
  fold_right (insert_asc leb) [] (nodup dec l).

(** [timeStamp.dt.floor("D")] after [tz_convert("Asia/Tokyo")], as a day
    number: Japan has been nine hours ahead of UTC, without daylight saving,
    for as long as there have been token transfers. *)
Definition date (r : Row) : Z := (timeStamp r + 32400) / 86400.

Definition is_some {A : Type} (x : option A) : bool :=
  match x with
  | Some _ => true
  | None => false
  end.

(** One aggregated group of [pivot_table]: the sum of [amount] over the rows
    of a day and a direction.  [None] when there is no such row, or when the
    sum is NaN and [dropna] removes the group. *)
Definition group_sum (t : list Row) (d : Z) (dir : Direction) : option f64 :=
  match filter (fun r => (date r =? d) && Direction_eqb (direction r) dir) t
  with
  | [] => None
  | g => match fsum (map amount g) with
         | NaN => None
         | s => Some s
         end
  end.

(** The index of the pivot: the days that keep a group, ascending. *)
Definition pivot_dates (t : list Row) : list Z :=
  sort_unique Z.eq_dec Z.leb
    (map date
       (filter (fun r => is_some (group_sum t (date r) (direction r))) t)).

(** [fill_value=0] *)
Definition fill_value0 (c : option f64) : f64 :=
  match c with
  | Some x => x
  | None => Fin 0
  end.

(** One column of the pivot; [None] when no group has that direction, in
    which case the pivot has no such column. *)
Definition pivot_column (t : list Row) (dir : Direction)
  : option (list f64) :=
  let ds := pivot_dates t in
  if existsb (fun d => is_some (group_sum t d dir)) ds
  then Some (map (fun d => fill_value0 (group_sum t d dir)) ds)
  else None.

(** [if "IN" not in daily_inout.columns: daily_inout["IN"] = 0.0] *)
Definition ensure_column (n : nat) (c : option (list f64)) : list f64 :=
  match c with
  | Some col => col
  | None => repeat (Fin 0) n
  end.

(** The frame [daily_inout] after both columns are ensured: one
    [(date, IN, OUT)] per day. *)
Definition daily_inout (t : list Row) : list (Z * f64 * f64) :=
  let ds := pivot_dates t in
  let n := List.length ds in
  combine (combine ds (ensure_column n (pivot_column t IN)))
          (ensure_column n (pivot_column t OUT)).

(** The counterparties that are not NaN, one per row. *)
Definition counterparty_cells (t : list Row) : list string :=
  flat_map (fun r => match counterparty r with
                     | Some c => [c]
                     | None => []
                     end) t.

(** [groupby("counterparty")["amount"].sum()]: one entry per distinct
    counterparty, keys ascending. *)
Definition groupby_sum (t : list Row) : list (string * f64) :=
  map (fun c =>
         (c, fsum (map amount
                    (filter (fun r => match counterparty r with
                                      | Some c' => String.eqb c' c
                                      | None => false
                                      end) t))))
      (sort_unique string_dec String.leb (counterparty_cells t)).

Definition distinct_counterparties (t : list Row) : nat :=
  List.length (nodup string_dec (counterparty_cells t)).

(** [x] may stand before [y] in descending order with NaN last. *)
Definition precedes (x y : f64) : bool :=
  match x, y with
  | _, NaN => true
  | NaN, _ => false
  | PInf, _ => true
  | _, NInf => true
  | Fin p, Fin q => Qle_bool q p
  | _, _ => false
  end.

Definition sorted_desc (l : list (string * f64)) : Prop :=
  StronglySorted (fun a b => precedes (snd a) (snd b) = true) l.

(** What pandas promises of [sort_values(ascending=False)] with the default
    [kind="quicksort"]: the entries are rearranged into descending order.  It
    documents only [mergesort] and [stable] as stable, so the order among
    equal sums is whatever the sorting routine leaves. *)
Definition sort_values_contract
    (sort_values : list (string * f64) -> list (string * f64)) : Prop :=
  forall l, Permutation (sort_values l) l /\ sorted_desc (sort_values l).

(** [groupby(...).sum().sort_values(ascending=False).head(20)] *)
Definition top_counterparties
    (sort_values : list (string * f64) -> list (string * f64))
    (t : list Row) : list (string * f64) :=
  firstn 20 (sort_values (groupby_sum t)).

(** A sorting routine that meets the contract: a stable insertion sort,
    each entry placed before the first entry that is not larger, so that
    entries of equal sums keep the order they came in. *)
Fixpoint insert_desc (a : string * f64) (l : list (string * f64))
  : list (string * f64) :=
  match l with
  | [] => [a]
  | b :: l' =>
      if precedes (snd a) (snd b) then a :: l else b :: insert_desc a l'
  end.

Definition insertion_sort_desc (l : list (string * f64))
  : list (string * f64) :=
  fold_right insert_desc [] l.

(* ------------------------------------------------------------------ *)
(** ** Display of addresses (app.py, [shorten]) *)

(** The first [n] characters, and what follows them. *)
Fixpoint take (n : nat) (s : string) : string :=
  match n, s with
  | S n', String c s' => String c (take n' s')
  | _, _ => EmptyString
  end.

Fixpoint drop (n : nat) (s : string) : string :=
  match n, s with
  | S n', String _ s' => drop n' s'
  | _, _ => s
  end.

(** How Python reads a slice bound on a sequence of [n] items: a negative
    bound counts from the end, and the result is clipped to [0 .. n]. *)
Definition slice_bound (i n : Z) : Z :=
  if i <? 0 then Z.max 0 (i + n) else Z.min i n.

(** [s[:stop]] *)
Definition slice_to (s : string) (stop : Z) : string :=
  take (Z.to_nat (slice_bound stop (len s))) s.

(** [s[start:]] *)
Definition slice_from (s : string) (start : Z) : string :=
  drop (Z.to_nat (slice_bound start (len s))) s.

(** [shorten(addr, head, tail)], on a cell: a cell that is not a [str] (NaN)
    is returned as [str(addr)]. *)
Definition shorten (addr : option string) (head tail : Z) : string :=
  match addr with
  | None => str_cell None
  | Some s =>
      if len s <? head + tail then s
      else (slice_to s head ++ "..." ++ slice_from s (- tail))%string
  end.

(* ------------------------------------------------------------------ *)
(** ** The API key (app.py, [get_api_key]) *)

(** What [st.secrets.get("ETHERSCAN_API_KEY", None)] does: it raises (no
    secrets file), or returns the entry, [None] when there is none. *)
Inductive SecretsLookup : Type :=
| SecretsRaise
| SecretsGet (v : option string).

(** Truth value of a [str]. *)
Definition truthy (s : string) : bool := negb (String.eqb s "").

(** [str(v).strip() if v else None] *)
Definition stripped_if_set (v : option string) : option string :=
  match v with
  | Some s => if truthy s then Some (strip s) else None
  | None => None
  end.

Definition get_api_key (secrets : SecretsLookup) (env : option string)
  : option string :=
  match secrets with
  | SecretsGet (Some v) =>
      if truthy v then Some (strip v) else stripped_if_set env
  | SecretsGet None | SecretsRaise => stripped_if_set env
  end.

(** [if not apikey: ... st.stop()]: the page goes on only with a key that
    is neither [None] nor empty. *)
Definition page_has_key (apikey : option string) : bool :=
  match apikey with
  | Some k => truthy k
  | None => false
  end.

(* ------------------------------------------------------------------ *)
(** ** Period filter and daily net flow (app.py, lines 295-319) *)

(** The calendar day, in Japan, of a number of Unix seconds. *)
Definition date_of (seconds : Z) : Z := (seconds + 32400) / 86400.

(** [df["timeStamp"].min()] and [.max()], of a table that is not empty. *)
Definition min_timeStamp (r : Row) (t : list Row) : Z :=
  fold_left Z.min (map timeStamp t) (timeStamp r).

Definition max_timeStamp (r : Row) (t : list Row) : Z :=
  fold_left Z.max (map timeStamp t) (timeStamp r).

(** The period that the date input proposes: from the day of the earliest
    transfer to the day of the latest.  [None] for the empty table, which
    the page never shows. *)
Definition default_period (t : list Row) : option (Z * Z) :=
  match t with
  | [] => None
  | r :: t' =>
      Some (date_of (min_timeStamp r t'), date_of (max_timeStamp r t'))
  end.

(** [df[(date >= start_dt) & (date <= end_dt)]] *)
Definition filter_by_date (start_dt end_dt : Z) (t : list Row) : list Row :=
  filter (fun r => (start_dt <=? date r) && (date r <=? end_dt)) t.

(** The days [lo], [lo + 1], ..., [hi]. *)
Definition days_between (lo hi : Z) : list Z :=
  map (fun i => lo + Z.of_nat i) (seq 0 (Z.to_nat (hi - lo + 1))).

(** [set_index("timeStamp")["signed_amount"].resample("D").sum()]: one bin
    per calendar day from the first transfer to the last, the sum of an
    empty bin being 0. *)
Definition daily_net (t : list Row) : list (Z * f64) :=
  match default_period t with
  | None => []
  | Some (lo, hi) =>
      map (fun d =>
             (d, fsum (map signed_amount
                        (filter (fun r => date r =? d) t))))
          (days_between lo hi)
  end.

(** The value of a finite float, for sums: 0 stands for the others. *)
Definition qval (x : f64) : Q :=
  match x with
  | Fin q => q
  | _ => 0%Q
  end.

Definition is_finite (x : f64) : bool :=
  match x with
  | Fin _ => true
  | _ => false
  end.

Definition qsum (l : list Q) : Q := fold_right Qplus 0%Q l.

(** A text that does not begin with white space. *)
Definition starts_clean (s : string) : Prop :=
  match s with
  | EmptyString => True
  | String c _ => isspace c = false
  end.



(* ------------------------------------------------------------------ *)
(** ** Sample data *)

Definition sample_wallet : string :=
  "0xe7c3d8c9a439fede00d2600032d5db0be71c3c29".

Definition non_hex_text : string :=
  "0xzzzzzzzzzzzzzzzzzzzzzzzzzzzzzzzzzzzzzzzz".


Definition sample_url (page : string) : string :=
  String.append "https://api.etherscan.io/v2/api?action=tokentx&page=" page.

Definition list_reply (page : string) (res : list RawRecord) : HttpReply :=
  HttpOk (mkResponse (Some "1") (Some "OK") (RList res)) (sample_url page).

Definition text_reply (page text : string) : HttpReply :=
  HttpOk (mkResponse (Some "0") (Some "NOTOK") (RStr text)) (sample_url page).

Definition other_wallet : string :=
  "0x1111111111111111111111111111111111111111".

(** A transfer of [value] base units of a token with [decimals] decimals,
    received by [sample_wallet]. *)
Definition transfer_in (value decimals : string) : RawRecord :=
  [("timeStamp", "1700000000"); ("hash", "0xabc"); ("from", other_wallet);
   ("to", sample_wallet); ("value", value); ("tokenDecimal", decimals)].


(** One full page of two records, then [reply] for every later page. *)
Definition one_full_then (reply : HttpReply) : Upstream :=
  fun page =>
    if page =? 1 then
      list_reply "1" [transfer_in "100" "0"; transfer_in "50" "0"]
    else reply.

Definition rate_limited : HttpReply :=
  text_reply "2" "Max rate limit reached".

Definition nothing_found : HttpReply :=
  text_reply "2" "No transactions found".

Definition empty_page : HttpReply := list_reply "2" [].

(** The explorer answering every request with the one record [r]. *)
Definition single_record (r : RawRecord) : Upstream :=
  fun _ => list_reply "1" [r].

(** The table of one received transfer whose [value] is ["-5"]. *)
Definition negative_table : list Row :=
  [normalize_row sample_wallet (transfer_in "-5" "0")].

(** The table of two received transfers, of 100 and of 50. *)
Definition two_in_table : list Row :=
  map (normalize_row sample_wallet)
      [transfer_in "100" "0"; transfer_in "50" "0"].

Definition wallet_a : string := "0xaaaaaaaaaaaaaaaaaaaaaaaaaaaaaaaaaaaaaaaa".
Definition wallet_b : string := "0xbbbbbbbbbbbbbbbbbbbbbbbbbbbbbbbbbbbbbbbb".

(** A transfer of [value] units, without decimals, from [sender] to
    [sample_wallet]. *)
Definition transfer_from (sender value : string) : RawRecord :=
  [("timeStamp", "1700000000"); ("hash", "0xabc"); ("from", sender);
   ("to", sample_wallet); ("value", value); ("tokenDecimal", "0")].

(** Two counterparties with the same total. *)
Definition tied_table : list Row :=
  map (normalize_row sample_wallet)
      [transfer_from wallet_a "1"; transfer_from wallet_b "1"].

(** A transfer record that lacks the [hash] field. *)
Definition record_without_hash : RawRecord :=
  [("timeStamp", "1700000000"); ("from", other_wallet);
   ("to", sample_wallet); ("value", "5"); ("tokenDecimal", "0")].

(** A transfer record whose [timeStamp] is not a number. *)
Definition record_bad_timestamp : RawRecord :=
  [("timeStamp", "yesterday"); ("hash", "0xabc"); ("from", other_wallet);
   ("to", sample_wallet); ("value", "5"); ("tokenDecimal", "0")].

(** The explorer failing at the transport level on every page but the
    first. *)
Definition connection_lost : HttpReply := HttpRaise "connection reset".

(** A transfer of [value] units, without decimals, sent by [sample_wallet]
    at [seconds]. *)
Definition transfer_out_at (seconds value : string) : RawRecord :=
  [("timeStamp", seconds); ("hash", "0xdef"); ("from", sample_wallet);
   ("to", other_wallet); ("value", value); ("tokenDecimal", "0")].

(** Received 100 and 50 on one day, sent 30 three days later. *)
Definition three_transfers : list Row :=
  map (normalize_row sample_wallet)
      [transfer_in "100" "0"; transfer_in "50" "0";
       transfer_out_at "1700259200" "30"].

(* ================================================================== *)
(** * Properties *)

(** ** Address check *)

Lemma startswith_0x (s : string) :
  startswith s "0x" = true <-> exists rest, s = String "0" (String "x" rest).
Proof.
  unfold startswith. rewrite prefix_correct. split.
  - destruct s as [|a [|b rest]]; cbn; try discriminate.
    intros H. injection H as -> ->. now exists rest.
  - intros [rest ->]. destruct rest; reflexivity.
Qed.

Lemma is_valid_address_unfold (s : string) :
  is_valid_address s = true <->
  startswith (strip s) "0x" = true /\ String.length (strip s) = 42%nat.
Proof.
  unfold is_valid_address, len. rewrite andb_true_iff, Z.eqb_eq.
  split; intros [H1 H2]; split; auto; lia.
Qed.

Lemma spec_wallet_address_shape (s : string) :
  spec_wallet_address s = true ->
  exists rest, s = String "0" (String "x" rest) /\ String.length rest = 40%nat.
Proof.
  unfold spec_wallet_address.
  destruct s as [|a [|b rest]]; try discriminate.
  - destruct a as [[] [] [] [] [] [] [] []]; discriminate.
  - destruct a as [[] [] [] [] [] [] [] []]; try discriminate.
    destruct b as [[] [] [] [] [] [] [] []]; try discriminate.
    rewrite andb_true_iff, Nat.eqb_eq. intros [H _]. now exists rest.
Qed.

(** C2 (as amended).  [is_valid_address] looks at the prefix and the length
    of the stripped text and at nothing else: it holds exactly when the
    stripped text is ["0x"] followed by 40 characters of any kind.  Hence it
    accepts every ["0x"] + 40 hexadecimal digits, and rejects a stripped text
    of 42 characters without the prefix and a stripped text of 41 or 43
    characters with it. *)
Theorem is_valid_address_prefix_and_length (s : string) :
  (is_valid_address s = true <->
   exists rest, strip s = String "0" (String "x" rest)
                /\ String.length rest = 40%nat)
  /\ (spec_wallet_address (strip s) = true -> is_valid_address s = true)
  /\ (String.length (strip s) = 42%nat ->
      startswith (strip s) "0x" = false -> is_valid_address s = false)
  /\ (startswith (strip s) "0x" = true ->
      String.length (strip s) = 41%nat \/ String.length (strip s) = 43%nat ->
      is_valid_address s = false).
Proof.
  assert (Hiff : is_valid_address s = true <->
                 exists rest, strip s = String "0" (String "x" rest)
                              /\ String.length rest = 40%nat).
  { rewrite is_valid_address_unfold, startswith_0x. split.
    - intros [[rest Hrest] Hlen]. exists rest. split; [assumption|].
      rewrite Hrest in Hlen. simpl in Hlen. lia.
    - intros [rest [Hrest Hlen]]. split; [now exists rest|].
      rewrite Hrest. simpl. lia. }
  split; [exact Hiff|]. split; [|split].
  - intros H. apply Hiff. now apply spec_wallet_address_shape.
  - intros _ Hpre. unfold is_valid_address. now rewrite Hpre.
  - intros _ Hlen. unfold is_valid_address, len.
    rewrite andb_false_iff. right. apply Z.eqb_neq. lia.
Qed.

Lemma is_valid_address_prefix_and_length_witness :
  spec_wallet_address (strip sample_wallet) = true
  /\ is_valid_address sample_wallet = true.
Proof.
  split; [reflexivity|].
  apply (proj1 (proj2 (is_valid_address_prefix_and_length sample_wallet))).
  reflexivity.
Defined.

(** C2 as stated fails: forty letters [z] after ["0x"] are accepted. *)
Lemma is_valid_address_accepts_non_hex :
  ~ (is_valid_address non_hex_text = true <->
     spec_wallet_address (strip non_hex_text) = true).
Proof.
  intros [H _]. specialize (H eq_refl). vm_compute in H. discriminate.
Qed.

(* ------------------------------------------------------------------ *)
(** ** The paging loop *)

Section PagerFacts.
Variable upstream : Upstream.
Variables offset max_pages : Z.

Let loop := pager_loop upstream offset max_pages.

(** Past the ceiling the loop leaves with what it has. *)
Lemma pager_loop_ceiling (fuel : nat) (page : Z) (rows : list RawRecord) :
  max_pages < page -> loop (S fuel) page rows = Some (Broke rows).
Proof.
  intros H. subst loop. simpl.
  destruct (Z.ltb_spec max_pages page); [reflexivity | lia].
Qed.

(** Below the ceiling, a page that is a list decides the iteration. *)
Lemma pager_loop_list (fuel : nat) (page : Z) (rows res : list RawRecord) :
  page <= max_pages ->
  page_records upstream page = Some res ->
  loop (S fuel) page rows =
  match res with
  | [] => Some (Broke rows)
  | _ :: _ =>
      if Z.of_nat (List.length res) <? offset
      then Some (Broke (rows ++ res))
      else loop fuel (page + 1) (rows ++ res)
  end.
Proof.
  intros Hle Hrec. subst loop. unfold page_records in Hrec. simpl.
  destruct (Z.ltb_spec max_pages page); [lia|].
  destruct (upstream page) as [what | data url]; [discriminate|].
  destruct (result data); try discriminate.
  injection Hrec as ->. reflexivity.
Qed.

Lemma pager_loop_full (fuel : nat) (page : Z) (rows : list RawRecord) :
  page <= max_pages ->
  full_page upstream offset page ->
  loop (S fuel) page rows =
  loop fuel (page + 1) (rows ++ pages_from upstream page 1).
Proof.
  intros Hle (res & Hrec & Hne & Hlen).
  rewrite (pager_loop_list fuel page rows res Hle Hrec).
  simpl. rewrite Hrec, app_nil_r.
  destruct res as [|r res']; [congruence|].
  destruct (Z.ltb_spec (Z.of_nat (List.length (r :: res'))) offset);
    [lia | reflexivity].
Qed.

Lemma pages_from_succ (page : Z) (k : nat) :
  pages_from upstream page (S k) =
  pages_from upstream page 1 ++ pages_from upstream (page + 1) k.
Proof. simpl. now rewrite app_nil_r. Qed.

(** [k] full pages in a row take the loop [k] iterations further. *)
Lemma pager_loop_reach (k : nat) :
  forall (fuel : nat) (page : Z) (rows : list RawRecord),
    (forall i, page <= i < page + Z.of_nat k ->
               i <= max_pages /\ full_page upstream offset i) ->
    loop (k + fuel) page rows =
    loop fuel (page + Z.of_nat k) (rows ++ pages_from upstream page k).
Proof.
  induction k as [|k IH]; intros fuel page rows Hfull.
  - simpl. now rewrite Z.add_0_r, app_nil_r.
  - destruct (Hfull page) as [Hle Hpage]; [lia|].
    change (S k + fuel)%nat with (S (k + fuel)).
    rewrite (pager_loop_full _ _ _ Hle Hpage), IH.
    + replace (page + 1 + Z.of_nat k) with (page + Z.of_nat (S k)) by lia.
      now rewrite (pages_from_succ page k), app_assoc.
    + intros i Hi. apply Hfull. lia.
Qed.

(** The same for the loop as [fetch_tokentx_cached] starts it. *)
Lemma pager_reach (k : nat) :
  Z.of_nat k <= max_pages ->
  (forall i, 1 <= i <= Z.of_nat k -> full_page upstream offset i) ->
  pager upstream offset max_pages =
  loop (S (Z.to_nat max_pages - k)) (Z.of_nat k + 1)
       (pages_from upstream 1 k).
Proof.
  intros Hk Hfull. unfold pager.
  replace (S (Z.to_nat max_pages)) with (k + S (Z.to_nat max_pages - k))%nat
    by lia.
  fold loop. rewrite pager_loop_reach.
  - replace (1 + Z.of_nat k) with (Z.of_nat k + 1) by lia. reflexivity.
  - intros i Hi. split; [lia|]. apply Hfull. lia.
Qed.

(** The loop needs no more iterations than there are pages up to the
    ceiling, plus the one that notices the ceiling. *)
Lemma pager_loop_terminates (fuel : nat) :
  forall (page : Z) (rows : list RawRecord),
    (Z.to_nat (max_pages + 1 - page) < fuel)%nat ->
    exists out, loop fuel page rows = Some out.
Proof.
  induction fuel as [|fuel IH]; intros page rows Hfuel; [lia|].
  subst loop. simpl.
  destruct (Z.ltb_spec max_pages page); [eauto|].
  destruct (upstream page) as [what | data url]; [eauto|].
  destruct (result data) as [ | s | res | repr]; eauto.
  - destruct (contains no_transactions s); eauto.
  - destruct res as [|r res']; [eauto|].
    destruct (Z.of_nat (List.length (r :: res')) <? offset); [eauto|].
    apply IH. lia.
Qed.

Lemma pager_terminates :
  exists out, pager upstream offset max_pages = Some out.
Proof. apply pager_loop_terminates. lia. Qed.

End PagerFacts.

Lemma fetch_tokentx_cached_terminates (upstream : Upstream)
    (address : string) (offset max_pages : Z) :
  exists out, fetch_tokentx_cached upstream address offset max_pages
              = Some out.
Proof.
  unfold fetch_tokentx_cached.
  destruct (pager_terminates upstream offset max_pages) as [out ->].
  destruct out; eauto.
Qed.

Section PagerResult.
Variable upstream : Upstream.
Variables offset max_pages : Z.

Let loop := pager_loop upstream offset max_pages.




End PagerResult.





(* ------------------------------------------------------------------ *)
(** ** Replies that are not a non-empty list *)

Section PagerReplies.
Variable upstream : Upstream.
Variables offset max_pages : Z.
Variables (page : Z) (data : Response) (url : string).
Hypothesis Hpage : page <= max_pages.
Hypothesis Hreply : upstream page = HttpOk data url.

Let loop := pager_loop upstream offset max_pages.

Lemma pager_loop_null (fuel : nat) (rows : list RawRecord) :
  result data = RNull ->
  loop (S fuel) page rows
  = Some (Raised (NullResult (normalize_etherscan_error data) url data)).
Proof.
  intros Hres. subst loop. simpl.
  destruct (Z.ltb_spec max_pages page); [lia|]. now rewrite Hreply, Hres.
Qed.

Lemma pager_loop_other (fuel : nat) (rows : list RawRecord) (repr : string) :
  result data = ROther repr ->
  loop (S fuel) page rows
  = Some (Raised (UnexpectedShape (normalize_etherscan_error data) url)).
Proof.
  intros Hres. subst loop. simpl.
  destruct (Z.ltb_spec max_pages page); [lia|]. now rewrite Hreply, Hres.
Qed.

Lemma pager_loop_text (fuel : nat) (rows : list RawRecord) (s : string) :
  result data = RStr s ->
  loop (S fuel) page rows
  = if contains no_transactions s
    then Some (Returned (Raw []))
    else Some (Raised (ApiError (normalize_etherscan_error data) url)).
Proof.
  intros Hres. subst loop. simpl.
  destruct (Z.ltb_spec max_pages page); [lia|]. now rewrite Hreply, Hres.
Qed.

End PagerReplies.

Lemma pages_from_nonempty (upstream : Upstream) (offset : Z) (k : nat) :
  (1 <= k)%nat ->
  (forall i, 1 <= i <= Z.of_nat k -> full_page upstream offset i) ->
  pages_from upstream 1 k <> [].
Proof.
  intros Hk Hfull. destruct k as [|k]; [lia|].
  destruct (Hfull 1) as (res & Hrec & Hne & _); [lia|].
  simpl. rewrite Hrec. destruct res; [congruence | discriminate].
Qed.

Lemma normalize_nrows (address : string) (rows : list RawRecord)
    (df : DataFrame) :
  normalize address rows = inr df -> nrows df = List.length rows.
Proof.
  unfold normalize. destruct (df_empty rows).
  - intros H. injection H as <-. reflexivity.
  - destruct (missing_columns rows); [|discriminate].
    destruct (negb (forallb timeStamp_ok rows)); [discriminate|].
    destruct (existsb _ rows); [discriminate|].
    intros H. injection H as <-. simpl. now rewrite length_map.
Qed.

Lemma one_full_then_full (reply : HttpReply) (i : Z) :
  1 <= i <= Z.of_nat 1 -> full_page (one_full_then reply) 2 i.
Proof.
  intros Hi. replace i with 1 by lia. eexists. split; [reflexivity|].
  split; [discriminate | simpl; lia].
Qed.

(** C4.  When the loop reaches a page (the pages before it were full and
    the ceiling is not passed) whose [result] is null, a text without the
    no-transactions sentinel, or neither list nor text, the fetch raises; the
    error carries status, message, raw result and resolved URL, and nothing
    of the pages read so far is returned. *)
Theorem fetch_aborts_on_bad_page (upstream : Upstream) (address : string)
    (offset max_pages : Z) (k : nat) (data : Response) (url : string) :
  Z.of_nat k + 1 <= max_pages ->
  (forall i, 1 <= i <= Z.of_nat k -> full_page upstream offset i) ->
  upstream (Z.of_nat k + 1) = HttpOk data url ->
  (result data = RNull
   \/ (exists s, result data = RStr s /\ contains no_transactions s = false)
   \/ (exists repr, result data = ROther repr)) ->
  exists e,
    fetch_tokentx_cached upstream address offset max_pages = Some (inl e)
    /\ diagnostic e = Some (status data, message data, result data, url).
Proof.
  intros Hk Hfull Hreply Hbad. unfold fetch_tokentx_cached.
  rewrite (pager_reach upstream offset max_pages k); [|lia|assumption].
  destruct Hbad as [Hnull | [(s & Hs & Hsent) | (repr & Hother)]].
  - rewrite (pager_loop_null upstream offset max_pages _ data url Hk Hreply);
      [|assumption].
    eexists. split; reflexivity.
  - rewrite (pager_loop_text upstream offset max_pages _ data url Hk Hreply
               _ _ s Hs), Hsent.
    eexists. split; reflexivity.
  - rewrite (pager_loop_other upstream offset max_pages _ data url Hk Hreply
               _ _ repr Hother).
    eexists. split; reflexivity.
Qed.

Lemma fetch_aborts_on_bad_page_witness :
  exists e,
    fetch_tokentx_cached (one_full_then rate_limited) sample_wallet 2 5
    = Some (inl e)
    /\ diagnostic e
       = Some (Some "0", Some "NOTOK", RStr "Max rate limit reached",
               sample_url "2").
Proof.
  apply (fetch_aborts_on_bad_page (one_full_then rate_limited) sample_wallet
           2 5 1 (mkResponse (Some "0") (Some "NOTOK")
                    (RStr "Max rate limit reached")) (sample_url "2")).
  - simpl. lia.
  - apply one_full_then_full.
  - reflexivity.
  - right. left. eexists. split; reflexivity.
Defined.

(** C5.  When the loop reaches a page whose [result] is a text containing
    the no-transactions sentinel, such as ["No transactions found"], the
    fetch returns the empty frame and raises nothing. *)
Theorem fetch_no_transactions_is_empty (upstream : Upstream)
    (address : string) (offset max_pages : Z) (k : nat) (data : Response)
    (url s : string) :
  Z.of_nat k + 1 <= max_pages ->
  (forall i, 1 <= i <= Z.of_nat k -> full_page upstream offset i) ->
  upstream (Z.of_nat k + 1) = HttpOk data url ->
  result data = RStr s ->
  contains no_transactions s = true ->
  fetch_tokentx_cached upstream address offset max_pages
  = Some (inr (Raw []))
  /\ contains no_transactions "No transactions found" = true.
Proof.
  intros Hk Hfull Hreply Hs Hsent. split; [|reflexivity].
  unfold fetch_tokentx_cached.
  rewrite (pager_reach upstream offset max_pages k); [|lia|assumption].
  now rewrite (pager_loop_text upstream offset max_pages _ data url Hk Hreply
                 _ _ s Hs), Hsent.
Qed.

Lemma fetch_no_transactions_is_empty_witness :
  fetch_tokentx_cached (fun _ => text_reply "1" "No transactions found")
    sample_wallet 200 10
  = Some (inr (Raw [])).
Proof.
  apply (fetch_no_transactions_is_empty
           (fun _ => text_reply "1" "No transactions found") sample_wallet
           200 10 0 (mkResponse (Some "0") (Some "NOTOK")
                       (RStr "No transactions found")) (sample_url "1")
           "No transactions found").
  - simpl. lia.
  - simpl. intros i Hi. lia.
  - reflexivity.
  - reflexivity.
  - reflexivity.
Defined.

(** C9.  When the loop reaches a page whose [result] is the empty list, it
    leaves by [break] without an error and the fetch goes on to normalise
    the records of the earlier pages.  The table it returns has no rows only
    when no earlier page was read. *)
Theorem fetch_empty_page_keeps_earlier_pages (upstream : Upstream)
    (address : string) (offset max_pages : Z) (k : nat) (data : Response)
    (url : string) :
  Z.of_nat k + 1 <= max_pages ->
  (forall i, 1 <= i <= Z.of_nat k -> full_page upstream offset i) ->
  upstream (Z.of_nat k + 1) = HttpOk data url ->
  result data = RList [] ->
  pager upstream offset max_pages = Some (Broke (pages_from upstream 1 k))
  /\ fetch_tokentx_cached upstream address offset max_pages
     = Some (normalize address (pages_from upstream 1 k))
  /\ (k = 0%nat ->
      fetch_tokentx_cached upstream address offset max_pages
      = Some (inr (Raw [])))
  /\ (forall df,
        fetch_tokentx_cached upstream address offset max_pages
        = Some (inr df) ->
        nrows df = 0%nat -> k = 0%nat).
Proof.
  intros Hk Hfull Hreply Hres.
  assert (Hpager : pager upstream offset max_pages
                   = Some (Broke (pages_from upstream 1 k))).
  { rewrite (pager_reach upstream offset max_pages k); [|lia|assumption].
    rewrite (pager_loop_list upstream offset max_pages _ _ _ []);
      [reflexivity | lia |].
    unfold page_records. now rewrite Hreply, Hres. }
  assert (Hfetch : fetch_tokentx_cached upstream address offset max_pages
                   = Some (normalize address (pages_from upstream 1 k))).
  { unfold fetch_tokentx_cached. now rewrite Hpager. }
  split; [exact Hpager|]. split; [exact Hfetch|]. split.
  - intros ->. rewrite Hfetch. reflexivity.
  - intros df Hdf Hrows. rewrite Hfetch in Hdf. injection Hdf as Hdf.
    apply normalize_nrows in Hdf. rewrite Hrows in Hdf.
    destruct k as [|k]; [reflexivity|]. exfalso.
    apply (pages_from_nonempty upstream offset (S k)); [lia | assumption|].
    destruct (pages_from upstream 1 (S k)); [reflexivity | discriminate].
Qed.

Lemma fetch_empty_page_keeps_earlier_pages_witness :
  pager (one_full_then empty_page) 2 5
  = Some (Broke [transfer_in "100" "0"; transfer_in "50" "0"]).
Proof.
  apply (fetch_empty_page_keeps_earlier_pages (one_full_then empty_page)
           sample_wallet 2 5 1
           (mkResponse (Some "1") (Some "OK") (RList [])) (sample_url "2")).
  - simpl. lia.
  - apply one_full_then_full.
  - reflexivity.
  - reflexivity.
Defined.

(** C10.  When the no-transactions sentinel arrives on a page after the
    first, the loop holds the records of the earlier pages at that moment,
    and the fetch still returns the empty frame: those records are dropped
    without an error. *)
Theorem fetch_sentinel_drops_earlier_pages (upstream : Upstream)
    (address : string) (offset max_pages : Z) (k : nat) (data : Response)
    (url s : string) :
  (1 <= k)%nat ->
  Z.of_nat k + 1 <= max_pages ->
  (forall i, 1 <= i <= Z.of_nat k -> full_page upstream offset i) ->
  upstream (Z.of_nat k + 1) = HttpOk data url ->
  result data = RStr s ->
  contains no_transactions s = true ->
  pager upstream offset max_pages
  = pager_loop upstream offset max_pages (S (Z.to_nat max_pages - k))
      (Z.of_nat k + 1) (pages_from upstream 1 k)
  /\ pages_from upstream 1 k <> []
  /\ fetch_tokentx_cached upstream address offset max_pages
     = Some (inr (Raw [])).
Proof.
  intros Hpos Hk Hfull Hreply Hs Hsent.
  assert (Hreach := pager_reach upstream offset max_pages k
                      ltac:(lia) Hfull).
  split; [exact Hreach|].
  split; [now apply (pages_from_nonempty upstream offset)|].
  unfold fetch_tokentx_cached. rewrite Hreach.
  now rewrite (pager_loop_text upstream offset max_pages _ data url Hk Hreply
                 _ _ s Hs), Hsent.
Qed.

Lemma fetch_sentinel_drops_earlier_pages_witness :
  pages_from (one_full_then nothing_found) 1 1 <> []
  /\ fetch_tokentx_cached (one_full_then nothing_found) sample_wallet 2 5
     = Some (inr (Raw [])).
Proof.
  destruct (fetch_sentinel_drops_earlier_pages (one_full_then nothing_found)
              sample_wallet 2 5 1
              (mkResponse (Some "0") (Some "NOTOK")
                 (RStr "No transactions found")) (sample_url "2")
              "No transactions found") as (_ & Hheld & Hempty).
  - lia.
  - simpl. lia.
  - apply one_full_then_full.
  - reflexivity.
  - reflexivity.
  - reflexivity.
  - split; assumption.
Defined.

(* ------------------------------------------------------------------ *)
(** ** The normaliser *)

Lemma pager_loop_returned (upstream : Upstream) (offset max_pages : Z)
    (fuel : nat) :
  forall page rows df,
    pager_loop upstream offset max_pages fuel page rows = Some (Returned df) ->
    df = Raw [].
Proof.
  induction fuel as [|fuel IH]; intros page rows df; simpl; [discriminate|].
  destruct (max_pages <? page); [discriminate|].
  destruct (upstream page) as [what | data url]; [discriminate|].
  destruct (result data) as [ | s | res | repr]; try discriminate.
  - destruct (contains no_transactions s); [|discriminate].
    intros H. now injection H as <-.
  - destruct res as [|r res']; [discriminate|].
    destruct (Z.of_nat (List.length (r :: res')) <? offset);
      [discriminate | apply IH].
Qed.

(** Every row of a normalised table comes from a record that passed the
    column-wise checks. *)
Lemma fetch_rows_normalized (upstream : Upstream) (address : string)
    (offset max_pages : Z) (t : list Row) (r : Row) :
  fetch_tokentx_cached upstream address offset max_pages
  = Some (inr (Transfers t)) ->
  In r t ->
  exists rec, r = normalize_row address rec
              /\ 0 <= tokenDecimal_of rec
              /\ timeStamp_ok rec = true.
Proof.
  unfold fetch_tokentx_cached, pager.
  destruct (pager_loop upstream offset max_pages _ 1 [])
    as [[rows | df | e] | ] eqn:Hloop; try discriminate.
  - unfold normalize. destruct (df_empty rows); [discriminate|].
    destruct (missing_columns rows); [|discriminate].
    destruct (forallb timeStamp_ok rows) eqn:Hts; [|discriminate].
    destruct (existsb _ rows) eqn:Hneg; [discriminate|]. simpl.
    intros H Hin. injection H as <-.
    apply in_map_iff in Hin. destruct Hin as (rec & <- & Hin).
    exists rec. split; [reflexivity|]. split.
    + destruct (Z.ltb_spec (tokenDecimal_of rec) 0) as [Hlt|]; [|assumption].
      assert (Hex : existsb (fun r => tokenDecimal_of r <? 0) rows = true).
      { apply existsb_exists. exists rec. split; [assumption|].
        now apply Z.ltb_lt. }
      congruence.
    + rewrite forallb_forall in Hts. now apply Hts.
  - apply pager_loop_returned in Hloop. subst df. discriminate.
Qed.

Lemma wrap64_small (z : Z) : - 2 ^ 63 <= z < 2 ^ 63 -> wrap64 z = z.
Proof. intros Hz. unfold wrap64. rewrite Z.mod_small; lia. Qed.

Lemma pow10_int64_exact (d : Z) : 0 <= d <= 18 -> pow10_int64 d = 10 ^ d.
Proof.
  intros Hd. unfold pow10_int64. apply wrap64_small.
  assert (H0 : 0 < 10 ^ d) by (apply Z.pow_pos_nonneg; lia).
  assert (H1 : 10 ^ d <= 10 ^ 18) by (apply Z.pow_le_mono_r; lia).
  assert (H2 : 10 ^ 18 < 2 ^ 63) by reflexivity.
  lia.
Qed.

Lemma truediv_nonneg (v p : Z) : 0 <= v -> 0 < p -> f_nonneg (truediv v p).
Proof.
  intros Hv Hp. unfold truediv.
  destruct (Z.eqb_spec p 0); [lia|]. simpl.
  apply Qmult_le_0_compat.
  - change 0%Q with (inject_Z 0). now rewrite <- Zle_Qle.
  - apply Qinv_le_0_compat. change 0%Q with (inject_Z 0).
    rewrite <- Zle_Qle. lia.
Qed.

(** The fields that [normalize_row] computes, for a token of at most 18
    decimals: the amount is the quotient, the decimals default to 0, the
    direction compares the lower-cased receiver with the lower-cased wallet,
    the counterparty is the other side. *)
Lemma normalize_row_fields (address : string) (rec : RawRecord) :
  let r := normalize_row address rec in
  (0 <= tokenDecimal r <= 18 ->
   f_eq (amount r)
        (Fin (inject_Z (value_raw r) / inject_Z (10 ^ tokenDecimal r))))
  /\ (to_numeric (cell "tokenDecimal" rec) = None -> tokenDecimal r = 0)
  /\ (direction r = IN <->
      lower (str_cell (cell "to" rec)) = lower address)
  /\ counterparty r = match direction r with
                      | IN => cell "from" rec
                      | OUT => cell "to" rec
                      end
  /\ signed_amount r = match direction r with
                       | IN => amount r
                       | OUT => fneg (amount r)
                       end.
Proof.
  simpl. split; [|split; [|split; [|split]]].
  - intros Hd. rewrite (pow10_int64_exact _ Hd). unfold truediv.
    assert (H0 : 0 < 10 ^ tokenDecimal_of rec)
      by (apply Z.pow_pos_nonneg; lia).
    destruct (Z.eqb_spec (10 ^ tokenDecimal_of rec) 0); [lia|].
    simpl. reflexivity.
  - intros Hnan. unfold tokenDecimal_of. rewrite Hnan. reflexivity.
  - unfold direction_of.
    destruct (String.eqb_spec (lower (str_cell (cell "to" rec)))
                (lower address)); split; congruence.
  - reflexivity.
  - reflexivity.
Qed.

(** C3 (as amended).  In every row that [fetch_tokentx_cached] returns,
    [signed_amount] is [amount] for IN and [-amount] for OUT, and [amount] is
    non-negative whenever the row's [value_raw] is non-negative and its
    token has at most 18 decimals. *)
Theorem normalized_amount_sign (upstream : Upstream) (address : string)
    (offset max_pages : Z) (t : list Row) (r : Row) :
  fetch_tokentx_cached upstream address offset max_pages
  = Some (inr (Transfers t)) ->
  In r t ->
  signed_amount r = match direction r with
                    | IN => amount r
                    | OUT => fneg (amount r)
                    end
  /\ (0 <= value_raw r -> tokenDecimal r <= 18 -> f_nonneg (amount r)).
Proof.
  intros Hfetch Hin.
  destruct (fetch_rows_normalized _ _ _ _ _ _ Hfetch Hin)
    as (rec & -> & Hdec & _).
  split; [reflexivity|]. simpl. intros Hv Hd.
  rewrite pow10_int64_exact by lia.
  apply truediv_nonneg; [assumption|]. apply Z.pow_pos_nonneg; lia.
Qed.

Lemma normalized_amount_sign_witness :
  f_nonneg (Fin (inject_Z 100 / inject_Z 1)).
Proof.
  apply (proj2 (normalized_amount_sign
                  (single_record (transfer_in "100" "0")) sample_wallet
                  200 1 [normalize_row sample_wallet (transfer_in "100" "0")]
                  (normalize_row sample_wallet (transfer_in "100" "0"))
                  eq_refl (or_introl eq_refl))).
  - vm_compute. discriminate.
  - vm_compute. discriminate.
Defined.

(** C3 as stated fails: a record whose [value] is the text ["-5"] yields a
    row with a negative [amount]. *)
Lemma negative_value_gives_negative_amount :
  exists t r,
    fetch_tokentx_cached (single_record (transfer_in "-5" "0")) sample_wallet
      200 1 = Some (inr (Transfers t))
    /\ In r t /\ ~ f_nonneg (amount r).
Proof.
  exists [normalize_row sample_wallet (transfer_in "-5" "0")].
  exists (normalize_row sample_wallet (transfer_in "-5" "0")).
  split; [reflexivity|]. split; [now left|].
  vm_compute. intros H. now apply H.
Qed.

(** C6 on the code.  The integer columns have 64 bits, and two records show
    that the quotient is lost beyond them.  With 19 decimals [10 ** d] wraps
    to a negative number, so a raw value of 1 gets a negative amount.  With
    18 decimals a raw value of [10 ^ 19] (ten whole tokens) wraps in
    [value_raw], and the amount is negative instead of 10. *)
Theorem amount_wraps_in_64_bits :
  (let r := normalize_row sample_wallet (transfer_in "1" "19") in
   fetch_tokentx_cached (single_record (transfer_in "1" "19")) sample_wallet
     200 1 = Some (inr (Transfers [r]))
   /\ value_raw r = 1 /\ tokenDecimal r = 19
   /\ f_eq (amount r) (Fin (inject_Z 1 / inject_Z (10 ^ 19 - 2 ^ 64)))
   /\ ~ f_eq (amount r) (Fin (inject_Z 1 / inject_Z (10 ^ 19))))
  /\ (let r := normalize_row sample_wallet
                 (transfer_in "10000000000000000000" "18") in
      fetch_tokentx_cached
        (single_record (transfer_in "10000000000000000000" "18"))
        sample_wallet 200 1 = Some (inr (Transfers [r]))
      /\ value_raw r = 10 ^ 19 - 2 ^ 64 /\ tokenDecimal r = 18
      /\ ~ f_eq (amount r) (Fin (inject_Z (10 ^ 19) / inject_Z (10 ^ 18)))
      /\ ~ f_nonneg (amount r)).
Proof.
  split; cbv zeta.
  - split; [reflexivity|]. split; [reflexivity|]. split; [reflexivity|].
    split; [reflexivity|]. vm_compute. discriminate.
  - split; [reflexivity|]. split; [reflexivity|]. split; [reflexivity|].
    split; vm_compute.
    + discriminate.
    + intros H. now apply H.
Qed.

(* ------------------------------------------------------------------ *)
(** ** Daily IN/OUT *)

Lemma fadd_nonneg (x y : f64) : f_nonneg x -> f_nonneg y -> f_nonneg (fadd x y).
Proof.
  destruct x as [p| | |], y as [q| | |]; simpl; try tauto.
  intros Hp Hq. change 0%Q with (0 + 0)%Q. now apply Qplus_le_compat.
Qed.

Lemma fold_fadd_nonneg (l : list f64) :
  forall acc, f_nonneg acc -> Forall f_nonneg l ->
              f_nonneg (fold_left fadd l acc).
Proof.
  induction l as [|x l IH]; intros acc Hacc Hl; [assumption|].
  inversion Hl; subst. simpl. apply IH; [|assumption].
  now apply fadd_nonneg.
Qed.

Lemma fsum_nonneg (l : list f64) : Forall f_nonneg l -> f_nonneg (fsum l).
Proof.
  intros Hl. unfold fsum. apply fold_fadd_nonneg.
  - simpl. apply Qle_refl.
  - apply Forall_forall. intros x Hx. apply filter_In in Hx.
    rewrite Forall_forall in Hl. now apply Hl.
Qed.

(** A cell of the pivot, once [fill_value] has been applied. *)
Lemma pivot_cell_nonneg (t : list Row) (d : Z) (dir : Direction) :
  (forall r, In r t -> f_nonneg (amount r)) ->
  f_nonneg (fill_value0 (group_sum t d dir)).
Proof.
  intros Hpos. unfold group_sum.
  set (g := filter _ t).
  assert (Hg : f_nonneg (fsum (map amount g))).
  { apply fsum_nonneg, Forall_forall. intros x Hx.
    apply in_map_iff in Hx. destruct Hx as (r & <- & Hr).
    apply filter_In in Hr. now apply Hpos. }
  destruct g as [|r g']; [simpl; apply Qle_refl|].
  destruct (fsum (map amount (r :: g'))); simpl in *; tauto.
Qed.

Lemma pivot_cell_missing (t : list Row) (d : Z) (dir : Direction) :
  (forall r, In r t -> date r = d -> direction r <> dir) ->
  fill_value0 (group_sum t d dir) = Fin 0.
Proof.
  intros Hnone. unfold group_sum.
  destruct (filter _ t) as [|r g] eqn:Hg; [reflexivity|]. exfalso.
  assert (Hr : In r (r :: g)) by now left.
  rewrite <- Hg in Hr. apply filter_In in Hr. destruct Hr as [Hin Hr].
  apply andb_true_iff in Hr. destruct Hr as [Hd Hdir].
  apply Z.eqb_eq in Hd. apply (Hnone r Hin Hd).
  destruct (direction r), dir; simpl in Hdir; congruence.
Qed.

Lemma repeat_as_map {A B : Type} (f : A -> B) (b : B) (l : list A) :
  (forall x, In x l -> f x = b) -> repeat b (List.length l) = map f l.
Proof.
  induction l as [|x l IH]; intros Hf; [reflexivity|].
  simpl. rewrite Hf by now left. f_equal. apply IH.
  intros y Hy. apply Hf. now right.
Qed.

(** An ensured column holds the filled cell of every day, whether the pivot
    had the column or not. *)
Lemma ensure_pivot_column (t : list Row) (dir : Direction) :
  ensure_column (List.length (pivot_dates t)) (pivot_column t dir)
  = map (fun d => fill_value0 (group_sum t d dir)) (pivot_dates t).
Proof.
  unfold pivot_column.
  destruct (existsb _ (pivot_dates t)) eqn:Hex; [reflexivity|].
  simpl. apply repeat_as_map. intros d Hd.
  destruct (group_sum t d dir) eqn:Hg; [|reflexivity].
  assert (Htrue : existsb (fun d => is_some (group_sum t d dir))
                    (pivot_dates t) = true).
  { apply existsb_exists. exists d. split; [assumption|]. now rewrite Hg. }
  congruence.
Qed.

Lemma combine_columns {A B C : Type} (f : A -> B) (g : A -> C) (l : list A) :
  combine (combine l (map f l)) (map g l) = map (fun x => (x, f x, g x)) l.
Proof.
  induction l as [|x l IH]; [reflexivity|]. simpl. now rewrite IH.
Qed.

Lemma daily_inout_rows (t : list Row) :
  daily_inout t
  = map (fun d => (d, fill_value0 (group_sum t d IN),
                   fill_value0 (group_sum t d OUT)))
        (pivot_dates t).
Proof.
  unfold daily_inout. rewrite !ensure_pivot_column. apply combine_columns.
Qed.

(** C8 (as amended).  For a table whose amounts are all non-negative, every
    day of the daily IN/OUT frame has a non-negative IN sum and a
    non-negative OUT sum, and a day without a transfer in one direction has
    exactly 0 there. *)
Theorem daily_inout_nonneg (t : list Row) :
  (forall r, In r t -> f_nonneg (amount r)) ->
  forall d i o,
    In (d, i, o) (daily_inout t) ->
    f_nonneg i /\ f_nonneg o
    /\ ((forall r, In r t -> date r = d -> direction r <> IN) -> i = Fin 0)
    /\ ((forall r, In r t -> date r = d -> direction r <> OUT) -> o = Fin 0).
Proof.
  intros Hpos d i o Hin. rewrite daily_inout_rows in Hin.
  apply in_map_iff in Hin. destruct Hin as (d' & Heq & _).
  injection Heq as -> <- <-.
  split; [now apply pivot_cell_nonneg|].
  split; [now apply pivot_cell_nonneg|].
  split; apply pivot_cell_missing.
Qed.

Lemma two_in_table_nonneg (r : Row) :
  In r two_in_table -> f_nonneg (amount r).
Proof.
  intros [<- | [<- | []]]; vm_compute; discriminate.
Qed.

Lemma daily_inout_nonneg_witness :
  In (19676, Fin (150 # 1), Fin 0) (daily_inout two_in_table)
  /\ f_nonneg (Fin (150 # 1)) /\ Fin 0 = Fin 0.
Proof.
  assert (Hin : In (19676, Fin (150 # 1), Fin 0) (daily_inout two_in_table))
    by (vm_compute; now left).
  destruct (daily_inout_nonneg two_in_table two_in_table_nonneg
              19676 (Fin (150 # 1)) (Fin 0) Hin) as (Hi & _ & _ & Ho).
  split; [exact Hin|]. split; [exact Hi|]. apply Ho.
  intros r [<- | [<- | []]] _; discriminate.
Defined.

(** C8 as stated fails: the table that the fetch builds from a record with
    [value] ["-5"] has a day whose IN sum is negative. *)
Lemma daily_inout_negative_sum :
  fetch_tokentx_cached (single_record (transfer_in "-5" "0")) sample_wallet
    200 1 = Some (inr (Transfers negative_table))
  /\ exists d i o, In (d, i, o) (daily_inout negative_table) /\ ~ f_nonneg i.
Proof.
  split; [reflexivity|].
  exists 19676, (Fin (-5 # 1)), (Fin 0). split.
  - vm_compute. now left.
  - vm_compute. intros H. now apply H.
Qed.

(* ------------------------------------------------------------------ *)
(** ** Counterparty ranking *)

Lemma precedes_total (x y : f64) : precedes x y = false -> precedes y x = true.
Proof.
  destruct x as [p| | |], y as [q| | |]; simpl; try congruence.
  intros H. apply Qle_bool_iff. apply Qlt_le_weak, Qnot_le_lt.
  intros Hle. apply Qle_bool_iff in Hle. congruence.
Qed.

Lemma precedes_trans (x y z : f64) :
  precedes x y = true -> precedes y z = true -> precedes x z = true.
Proof.
  destruct x as [p| | |], y as [q| | |], z as [r| | |]; simpl;
    try congruence.
  rewrite !Qle_bool_iff. intros H1 H2. now apply Qle_trans with q.
Qed.

Lemma insert_desc_perm (a : string * f64) (l : list (string * f64)) :
  Permutation (insert_desc a l) (a :: l).
Proof.
  induction l as [|b l IH]; simpl; [reflexivity|].
  destruct (precedes (snd a) (snd b)); [reflexivity|].
  rewrite IH. apply perm_swap.
Qed.

Lemma insert_desc_sorted (a : string * f64) (l : list (string * f64)) :
  sorted_desc l -> sorted_desc (insert_desc a l).
Proof.
  unfold sorted_desc. induction l as [|b l IH]; intros Hl; simpl.
  - repeat constructor.
  - destruct (precedes (snd a) (snd b)) eqn:Hab.
    + constructor; [assumption|].
      apply StronglySorted_inv in Hl. destruct Hl as [_ Hb].
      constructor; [assumption|].
      apply Forall_forall. intros c Hc. rewrite Forall_forall in Hb.
      apply precedes_trans with (snd b); [assumption | now apply Hb].
    + apply precedes_total in Hab.
      apply StronglySorted_inv in Hl. destruct Hl as [Hl Hb].
      constructor; [now apply IH|].
      apply Forall_forall. intros c Hc.
      apply (Permutation_in _ (insert_desc_perm a l)) in Hc.
      destruct Hc as [<- | Hc]; [assumption|].
      rewrite Forall_forall in Hb. now apply Hb.
Qed.

Lemma insertion_sort_desc_contract : sort_values_contract insertion_sort_desc.
Proof.
  intros l. induction l as [|a l [IHp IHs]]; simpl.
  - split; [reflexivity | constructor].
  - split.
    + rewrite insert_desc_perm. now constructor.
    + now apply insert_desc_sorted.
Qed.

Lemma insert_asc_length {A : Type} (leb : A -> A -> bool) (x : A)
    (l : list A) :
  List.length (insert_asc leb x l) = S (List.length l).
Proof.
  induction l as [|y l IH]; simpl; [reflexivity|].
  destruct (leb x y); simpl; [reflexivity | now rewrite IH].
Qed.

Lemma sort_unique_length {A : Type} (dec : forall x y : A, {x = y} + {x <> y})
    (leb : A -> A -> bool) (l : list A) :
  List.length (sort_unique dec leb l) = List.length (nodup dec l).
Proof.
  unfold sort_unique. induction (nodup dec l) as [|x l' IH]; simpl;
    [reflexivity|].
  now rewrite insert_asc_length, IH.
Qed.

(** The grouping has one entry per distinct counterparty. *)
Lemma groupby_sum_length (t : list Row) :
  List.length (groupby_sum t) = distinct_counterparties t.
Proof.
  unfold groupby_sum, distinct_counterparties.
  now rewrite length_map, sort_unique_length.
Qed.

(* ================================================================== *)
(** * Further properties of the code *)

(** ** Stripping *)

Lemma lstrip_starts_clean (s : string) : starts_clean (lstrip s).
Proof.
  induction s as [|c s IH]; simpl; [exact I|].
  destruct (isspace c) eqn:Hc; [assumption | exact Hc].
Qed.

Lemma lstrip_clean_id (s : string) : starts_clean s -> lstrip s = s.
Proof.
  destruct s as [|c s]; simpl; [reflexivity|]. now intros ->.
Qed.

Lemma rstrip_starts_clean (s : string) :
  starts_clean s -> starts_clean (rstrip s).
Proof.
  destruct s as [|c s]; simpl; [trivial|]. intros Hc.
  destruct (rstrip s); [rewrite Hc|]; exact Hc.
Qed.

Lemma rstrip_idempotent (s : string) : rstrip (rstrip s) = rstrip s.
Proof.
  induction s as [|c s IH]; [reflexivity|]. simpl.
  destruct (rstrip s) as [|d t] eqn:Ht.
  - destruct (isspace c) eqn:Hc; [reflexivity|]. simpl. now rewrite Hc.
  - change (rstrip (String c (String d t)))
      with (match rstrip (String d t) with
            | EmptyString =>
                if isspace c then EmptyString else String c EmptyString
            | String a u => String c (String a u)
            end).
    now rewrite IH.
Qed.

Lemma strip_idempotent (s : string) : strip (strip s) = strip s.
Proof.
  unfold strip.
  rewrite (lstrip_clean_id (rstrip (lstrip s))).
  - apply rstrip_idempotent.
  - apply rstrip_starts_clean, lstrip_starts_clean.
Qed.

(** X1.  [is_valid_address] gives the same answer for a text and for the
    text with its surrounding white space removed, so the check that the
    page runs on the stripped input agrees with the check on the raw one. *)
Theorem is_valid_address_ignores_outer_space (s : string) :
  is_valid_address (strip s) = is_valid_address s.
Proof. unfold is_valid_address. now rewrite strip_idempotent. Qed.

(* ------------------------------------------------------------------ *)
(** ** The API key *)

Lemma stripped_if_set_clean (v : option string) (k : string) :
  stripped_if_set v = Some k -> strip k = k.
Proof.
  destruct v as [s|]; simpl; [|discriminate].
  destruct (truthy s); [|discriminate].
  intros H. injection H as <-. apply strip_idempotent.
Qed.

(** X2.  A key returned by [get_api_key] never has white space around it,
    whichever of the two places it comes from. *)
Theorem get_api_key_is_stripped (secrets : SecretsLookup)
    (env : option string) (k : string) :
  get_api_key secrets env = Some k -> strip k = k.
Proof.
  destruct secrets as [|[v|]]; simpl.
  - apply stripped_if_set_clean.
  - destruct (truthy v).
    + intros H. injection H as <-. apply strip_idempotent.
    + apply stripped_if_set_clean.
  - apply stripped_if_set_clean.
Qed.

Lemma get_api_key_is_stripped_witness : strip "abc" = "abc".
Proof.
  apply (get_api_key_is_stripped (SecretsGet (Some " abc ")) None "abc").
  reflexivity.
Defined.

(** A secrets entry that is not empty decides the key, whatever the
    environment holds; without such an entry (no secrets file, no entry, or
    the empty text) the key is the one of the environment. *)
Lemma get_api_key_precedence (secrets : SecretsLookup)
    (env : option string) :
  (forall v, secrets = SecretsGet (Some v) -> v <> "" ->
             get_api_key secrets env = Some (strip v))
  /\ (secrets = SecretsRaise \/ secrets = SecretsGet None
      \/ secrets = SecretsGet (Some "") ->
      get_api_key secrets env = stripped_if_set env).
Proof.
  split.
  - intros v -> Hv. simpl. unfold truthy.
    destruct (String.eqb_spec v ""); [contradiction | reflexivity].
  - intros [-> | [-> | ->]]; reflexivity.
Qed.

(** X3.  A secrets entry made of white space only stops the page even when
    the environment holds a key: the entry counts as set, is stripped to the
    empty text, and the environment is never asked. *)
Theorem blank_secret_hides_environment_key (v : string)
    (env : option string) :
  v <> "" -> strip v = "" ->
  get_api_key (SecretsGet (Some v)) env = Some ""
  /\ page_has_key (get_api_key (SecretsGet (Some v)) env) = false.
Proof.
  intros Hv Hblank. simpl. unfold truthy.
  destruct (String.eqb_spec v ""); [contradiction|]. simpl.
  rewrite Hblank. split; reflexivity.
Qed.

Lemma blank_secret_hides_environment_key_witness :
  page_has_key (get_api_key (SecretsGet (Some "  ")) (Some "KEY")) = false.
Proof.
  apply (blank_secret_hides_environment_key "  " (Some "KEY")).
  - discriminate.
  - reflexivity.
Defined.

(** X4.  The page goes on exactly when one of the two places holds a text
    that is not blank and is consulted: the result is a usable key if and
    only if the secrets entry is set and not blank, or the secrets entry is
    unset (or unreadable) and the environment value is set and not blank. *)
Theorem page_has_key_iff (secrets : SecretsLookup) (env : option string) :
  page_has_key (get_api_key secrets env) = true <->
  (exists v, secrets = SecretsGet (Some v) /\ v <> "" /\ strip v <> "")
  \/ ((secrets = SecretsRaise \/ secrets = SecretsGet None
       \/ secrets = SecretsGet (Some ""))
      /\ exists e, env = Some e /\ e <> "" /\ strip e <> "").
Proof.
  assert (Henv : page_has_key (stripped_if_set env) = true <->
                 exists e, env = Some e /\ e <> "" /\ strip e <> "").
  { destruct env as [e|]; simpl.
    - unfold truthy. destruct (String.eqb_spec e ""); simpl.
      + split; [discriminate|]. intros (e' & He & Hne & _).
        injection He as <-. contradiction.
      + unfold truthy. destruct (String.eqb_spec (strip e) ""); simpl.
        * split; [discriminate|]. intros (e' & He & _ & Hne).
          injection He as <-. contradiction.
        * split; [|reflexivity]. intros _. now exists e.
    - split; [discriminate|]. intros (e & He & _). discriminate. }
  destruct secrets as [|[v|]]; simpl.
  - rewrite Henv. split.
    + intros H. right. split; [now left | assumption].
    + intros [(v & Hv & _) | [_ H]]; [discriminate | assumption].
  - unfold truthy at 1. destruct (String.eqb_spec v ""); simpl.
    + subst v. rewrite Henv. split.
      * intros H. right. split; [now right; right | assumption].
      * intros [(v & Hv & Hne & _) | [_ H]]; [|assumption].
        injection Hv as <-. contradiction.
    + unfold truthy. destruct (String.eqb_spec (strip v) ""); simpl.
      * split; [discriminate|].
        intros [(v' & Hv & _ & Hne) | [[H | [H | H]] _]];
          try discriminate.
        -- injection Hv as <-. contradiction.
        -- injection H as ->. contradiction.
      * split; [|reflexivity]. intros _. left. now exists v.
  - rewrite Henv. split.
    + intros H. right. split; [now right; left | assumption].
    + intros [(v & Hv & _) | [_ H]]; [discriminate | assumption].
Qed.

Lemma page_has_key_iff_witness :
  page_has_key (get_api_key SecretsRaise (Some "KEY")) = true.
Proof.
  apply (proj2 (page_has_key_iff SecretsRaise (Some "KEY"))).
  right. split; [now left|]. exists "KEY".
  repeat split; discriminate.
Defined.

(* ------------------------------------------------------------------ *)
(** ** Display of addresses *)

Lemma length_string_app (a b : string) :
  String.length (a ++ b)%string = (String.length a + String.length b)%nat.
Proof. induction a as [|c a IH]; simpl; [reflexivity | now rewrite IH]. Qed.

Lemma string_app_assoc (a b c : string) :
  ((a ++ b) ++ c = a ++ (b ++ c))%string.
Proof. induction a as [|x a IH]; simpl; [reflexivity | now rewrite IH]. Qed.

Lemma length_take (n : nat) (s : string) :
  (n <= String.length s)%nat -> String.length (take n s) = n.
Proof.
  revert s. induction n as [|n IH]; intros s Hn; [reflexivity|].
  destruct s as [|c s]; simpl in *; [lia|]. rewrite IH; lia.
Qed.

Lemma length_drop (n : nat) (s : string) :
  String.length (drop n s) = (String.length s - n)%nat.
Proof.
  revert s. induction n as [|n IH]; intros s; simpl; [lia|].
  destruct s as [|c s]; simpl; [reflexivity | apply IH].
Qed.

Lemma take_app_exact (a b : string) :
  take (String.length a) (a ++ b)%string = a.
Proof. induction a as [|c a IH]; simpl; [reflexivity | now rewrite IH]. Qed.

Lemma drop_app_exact (a b : string) :
  drop (String.length a) (a ++ b)%string = b.
Proof. induction a as [|c a IH]; simpl; [reflexivity | exact IH]. Qed.

(** The shape of a shortened text that is long enough. *)
Lemma shorten_long (s : string) (head tail : Z) :
  0 <= head -> 1 <= tail -> head + tail <= len s ->
  shorten (Some s) head tail
  = (take (Z.to_nat head) s ++ "..."
     ++ drop (String.length s - Z.to_nat tail) s)%string.
Proof.
  intros Hh Ht Hlen. unfold shorten, slice_to, slice_from, slice_bound.
  unfold len in *.
  destruct (Z.ltb_spec (Z.of_nat (String.length s)) (head + tail)); [lia|].
  destruct (Z.ltb_spec head 0); [lia|].
  destruct (Z.ltb_spec (- tail) 0); [|lia].
  repeat f_equal; lia.
Qed.

(** X5.  A text of at least [head + tail] characters is shortened to
    exactly [head + 3 + tail] characters: its first [head], three dots, its
    last [tail].  A shorter text is returned as it is.  So a text of
    [head + tail] up to [head + tail + 2] characters comes out longer than it
    went in. *)
Theorem shorten_length (s : string) (head tail : Z) :
  0 <= head -> 1 <= tail ->
  (len s < head + tail -> shorten (Some s) head tail = s)
  /\ (head + tail <= len s ->
      len (shorten (Some s) head tail) = head + 3 + tail
      /\ slice_to (shorten (Some s) head tail) head = slice_to s head
      /\ slice_from (shorten (Some s) head tail) (- tail)
         = slice_from s (- tail)).
Proof.
  intros Hh Ht. split.
  - intros Hshort. unfold shorten.
    destruct (Z.ltb_spec (len s) (head + tail)); [reflexivity | lia].
  - intros Hlen. rewrite (shorten_long s head tail Hh Ht Hlen).
    unfold len in Hlen.
    set (H := take (Z.to_nat head) s).
    set (T := drop (String.length s - Z.to_nat tail) s).
    assert (HH : String.length H = Z.to_nat head)
      by (apply length_take; lia).
    assert (HT : String.length T = Z.to_nat tail)
      by (unfold T; rewrite length_drop; lia).
    assert (Hr : len (H ++ "..." ++ T)%string = head + 3 + tail).
    { unfold len. rewrite !length_string_app, HH, HT. simpl. lia. }
    split; [exact Hr|]. split.
    + unfold slice_to, slice_bound. rewrite Hr.
      destruct (Z.ltb_spec head 0); [lia|].
      replace (Z.to_nat (Z.min head (head + 3 + tail)))
        with (String.length H) by lia.
      rewrite take_app_exact. unfold len.
      replace (Z.to_nat (Z.min head (Z.of_nat (String.length s))))
        with (Z.to_nat head) by lia.
      reflexivity.
    + unfold slice_from, slice_bound. rewrite Hr.
      destruct (Z.ltb_spec (- tail) 0); [|lia].
      replace (Z.to_nat (Z.max 0 (- tail + (head + 3 + tail))))
        with (String.length (H ++ "...")%string)
        by (rewrite length_string_app, HH; simpl; lia).
      rewrite <- string_app_assoc, drop_app_exact. unfold len, T.
      f_equal. lia.
Qed.

Lemma shorten_length_witness :
  len (shorten (Some sample_wallet) 6 4) = 6 + 3 + 4.
Proof.
  apply (proj2 (shorten_length sample_wallet 6 4 ltac:(lia) ltac:(lia))).
  vm_compute. discriminate.
Defined.

(** X6.  Shortening twice is shortening once: the shortened text is long
    enough to be cut again, and its own first [head] and last [tail]
    characters are those of the original. *)
Theorem shorten_idempotent (s : string) (head tail : Z) :
  0 <= head -> 1 <= tail ->
  shorten (Some (shorten (Some s) head tail)) head tail
  = shorten (Some s) head tail.
Proof.
  intros Hh Ht.
  destruct (Z.lt_ge_cases (len s) (head + tail)) as [Hshort | Hlen].
  - assert (Hs : shorten (Some s) head tail = s).
    { unfold shorten.
      destruct (Z.ltb_spec (len s) (head + tail)); [reflexivity | lia]. }
    now rewrite !Hs.
  - rewrite (shorten_long s head tail Hh Ht Hlen).
    unfold len in Hlen.
    set (H := take (Z.to_nat head) s).
    set (T := drop (String.length s - Z.to_nat tail) s).
    assert (HH : String.length H = Z.to_nat head)
      by (apply length_take; lia).
    assert (HT : String.length T = Z.to_nat tail)
      by (unfold T; rewrite length_drop; lia).
    assert (Hr : String.length (H ++ "..." ++ T)%string
                 = (Z.to_nat head + 3 + Z.to_nat tail)%nat).
    { rewrite !length_string_app, HH, HT. simpl. lia. }
    rewrite shorten_long; [|assumption|assumption|unfold len; lia].
    rewrite Hr.
    replace (Z.to_nat head) with (String.length H) at 1 by exact HH.
    rewrite take_app_exact.
    replace (Z.to_nat head + 3 + Z.to_nat tail - Z.to_nat tail)%nat
      with (String.length (H ++ "...")%string)
      by (rewrite length_string_app, HH; simpl; lia).
    assert (Hd : drop (String.length (H ++ "...")%string)
                   (H ++ "..." ++ T)%string = T)
      by (rewrite <- string_app_assoc; apply drop_app_exact).
    now rewrite Hd.
Qed.

Lemma shorten_idempotent_witness :
  shorten (Some "0xe7c3...3c29") 6 4 = "0xe7c3...3c29".
Proof.
  apply (shorten_idempotent sample_wallet 6 4); lia.
Defined.

(** X7.  With [tail = 0] nothing is hidden: Python reads [addr[-0:]] as the
    whole text, so the result is the first [head] characters, three dots,
    and then the text in full. *)
Theorem shorten_zero_tail_shows_all (s : string) (head : Z) :
  0 <= head <= len s ->
  shorten (Some s) head 0 = (take (Z.to_nat head) s ++ "..." ++ s)%string.
Proof.
  intros Hh. unfold shorten, slice_to, slice_from, slice_bound.
  destruct (Z.ltb_spec (len s) (head + 0)); [lia|].
  destruct (Z.ltb_spec head 0); [lia|].
  change (- 0) with 0. change (0 <? 0) with false. cbv iota.
  replace (Z.min head (len s)) with head by lia.
  replace (Z.to_nat (Z.min 0 (len s))) with 0%nat by (unfold len; lia).
  reflexivity.
Qed.

Lemma shorten_zero_tail_shows_all_witness :
  shorten (Some "0123456789abc") 6 0 = "012345...0123456789abc".
Proof.
  apply (shorten_zero_tail_shows_all "0123456789abc" 6).
  vm_compute. split; discriminate.
Defined.

(** X8.  Every address that passes [is_valid_address] is displayed, once
    stripped, in 13 characters that still begin with ["0x"]: the prefix and
    four more characters, three dots, and the last four characters. *)
Theorem shorten_valid_address (s : string) :
  is_valid_address s = true ->
  len (shorten (Some (strip s)) 6 4) = 13
  /\ startswith (shorten (Some (strip s)) 6 4) "0x" = true.
Proof.
  intros Hvalid. apply is_valid_address_unfold in Hvalid.
  destruct Hvalid as [Hpre Hlen].
  apply startswith_0x in Hpre. destruct Hpre as [rest Hrest].
  rewrite shorten_long; [|lia|lia|unfold len; lia].
  rewrite Hrest in *. simpl in Hlen. split.
  - unfold len.
    rewrite !length_string_app, length_take, length_drop;
      cbn [String.length]; lia.
  - apply startswith_0x. eexists. reflexivity.
Qed.

Lemma shorten_valid_address_witness :
  len (shorten (Some (strip sample_wallet)) 6 4) = 13
  /\ startswith (shorten (Some (strip sample_wallet)) 6 4) "0x" = true.
Proof.
  apply (shorten_valid_address sample_wallet). reflexivity.
Defined.

(* ------------------------------------------------------------------ *)
(** ** Further properties of the fetch *)

Lemma normalize_nil (address : string) : normalize address [] = inr (Raw []).
Proof. reflexivity. Qed.

(** X9.  With a ceiling below one page the fetch asks the explorer nothing
    and returns the empty frame, whatever the explorer would have said. *)
Theorem fetch_without_pages (upstream : Upstream) (address : string)
    (offset max_pages : Z) :
  max_pages < 1 ->
  fetch_tokentx_cached upstream address offset max_pages
  = Some (inr (Raw [])).
Proof.
  intros Hmax. unfold fetch_tokentx_cached, pager.
  rewrite pager_loop_ceiling by lia. now rewrite normalize_nil.
Qed.

Lemma fetch_without_pages_witness :
  fetch_tokentx_cached (fun _ => connection_lost) sample_wallet 200 0
  = Some (inr (Raw [])).
Proof.
  apply (fetch_without_pages (fun _ => connection_lost) sample_wallet 200 0).
  lia.
Defined.

Lemma pager_loop_agree (up1 up2 : Upstream) (offset max_pages : Z)
    (fuel : nat) :
  forall page rows,
    (forall p, page <= p <= max_pages -> up1 p = up2 p) ->
    pager_loop up1 offset max_pages fuel page rows
    = pager_loop up2 offset max_pages fuel page rows.
Proof.
  induction fuel as [|fuel IH]; intros page rows Hagree; [reflexivity|].
  simpl. destruct (Z.ltb_spec max_pages page); [reflexivity|].
  rewrite <- (Hagree page) by lia.
  destruct (up1 page) as [what | data url]; [reflexivity|].
  destruct (result data) as [ | s | res | repr]; try reflexivity.
  destruct res as [|r res']; [reflexivity|].
  destruct (Z.of_nat (List.length (r :: res')) <? offset); [reflexivity|].
  apply IH. intros p Hp. apply Hagree. lia.
Qed.

(** X10.  The fetch depends on the explorer only through the pages 1 to
    [max_pages]: two explorers that agree on these pages give the same
    result, so nothing beyond the ceiling is ever looked at. *)
Theorem fetch_ignores_pages_beyond_ceiling (up1 up2 : Upstream)
    (address : string) (offset max_pages : Z) :
  (forall p, 1 <= p <= max_pages -> up1 p = up2 p) ->
  fetch_tokentx_cached up1 address offset max_pages
  = fetch_tokentx_cached up2 address offset max_pages.
Proof.
  intros Hagree. unfold fetch_tokentx_cached, pager.
  now rewrite (pager_loop_agree up1 up2 offset max_pages _ 1 [] Hagree).
Qed.

Lemma fetch_ignores_pages_beyond_ceiling_witness :
  fetch_tokentx_cached (one_full_then rate_limited) sample_wallet 2 1
  = fetch_tokentx_cached (one_full_then empty_page) sample_wallet 2 1.
Proof.
  apply (fetch_ignores_pages_beyond_ceiling (one_full_then rate_limited)
           (one_full_then empty_page) sample_wallet 2 1).
  intros p Hp. replace p with 1 by lia. reflexivity.
Defined.

(** X11.  A transport failure on a page that the loop reaches is passed on
    as it is: the fetch raises it and returns nothing of the pages read
    before. *)
Theorem fetch_transport_error_propagates (upstream : Upstream)
    (address : string) (offset max_pages : Z) (k : nat) (what : string) :
  Z.of_nat k + 1 <= max_pages ->
  (forall i, 1 <= i <= Z.of_nat k -> full_page upstream offset i) ->
  upstream (Z.of_nat k + 1) = HttpRaise what ->
  fetch_tokentx_cached upstream address offset max_pages
  = Some (inl (TransportError what)).
Proof.
  intros Hk Hfull Hraise. unfold fetch_tokentx_cached.
  rewrite (pager_reach upstream offset max_pages k); [|lia|assumption].
  simpl. destruct (Z.ltb_spec max_pages (Z.of_nat k + 1)); [lia|].
  now rewrite Hraise.
Qed.

Lemma fetch_transport_error_propagates_witness :
  fetch_tokentx_cached (one_full_then connection_lost) sample_wallet 2 5
  = Some (inl (TransportError "connection reset")).
Proof.
  apply (fetch_transport_error_propagates (one_full_then connection_lost)
           sample_wallet 2 5 1 "connection reset").
  - simpl. lia.
  - apply one_full_then_full.
  - reflexivity.
Defined.

Lemma pager_loop_broke (upstream : Upstream) (offset max_pages : Z)
    (fuel : nat) :
  forall page rows out,
    pager_loop upstream offset max_pages fuel page rows = Some (Broke out) ->
    exists k : nat,
      out = rows ++ pages_from upstream page k
      /\ page + Z.of_nat k <= Z.max page (max_pages + 1).
Proof.
  induction fuel as [|fuel IH]; intros page rows out; simpl; [discriminate|].
  destruct (Z.ltb_spec max_pages page) as [Hgt | Hle].
  { intros H. injection H as <-. exists 0%nat. simpl.
    rewrite app_nil_r. split; [reflexivity | lia]. }
  destruct (upstream page) as [what | data url] eqn:Hup; [discriminate|].
  destruct (result data) as [ | s | res | repr] eqn:Hres; try discriminate.
  { destruct (contains no_transactions s); discriminate. }
  assert (Hrec : page_records upstream page = Some res)
    by (unfold page_records; now rewrite Hup, Hres).
  destruct res as [|r res'].
  { intros H. injection H as <-. exists 1%nat. simpl. rewrite Hrec.
    rewrite !app_nil_r. split; [reflexivity | lia]. }
  destruct (Z.of_nat (List.length (r :: res')) <? offset).
  { intros H. injection H as <-. exists 1%nat. simpl. rewrite Hrec.
    rewrite app_nil_r. split; [reflexivity | lia]. }
  intros H. apply IH in H. destruct H as (k & -> & Hk).
  exists (S k). simpl pages_from. rewrite Hrec, <- app_assoc.
  split; [reflexivity | lia].
Qed.

Lemma map_raw_normalize (address : string) (rows : list RawRecord) :
  map raw (map (normalize_row address) rows) = rows.
Proof.
  induction rows as [|r rows IH]; simpl; [reflexivity | now rewrite IH].
Qed.

(** X12.  A normalised table holds one row per record of the pages read, in
    the order in which the pages came and the records stood on them: the
    fetch drops, repeats and reorders nothing. *)
Theorem fetch_keeps_fetch_order (upstream : Upstream) (address : string)
    (offset max_pages : Z) (t : list Row) :
  fetch_tokentx_cached upstream address offset max_pages
  = Some (inr (Transfers t)) ->
  exists k : nat,
    Z.of_nat k <= Z.max 0 max_pages
    /\ map raw t = pages_from upstream 1 k.
Proof.
  unfold fetch_tokentx_cached, pager.
  destruct (pager_loop upstream offset max_pages _ 1 [])
    as [[rows | df | e] | ] eqn:Hloop; try discriminate.
  - apply pager_loop_broke in Hloop. destruct Hloop as (k & Hrows & Hk).
    simpl in Hrows. intros Hnorm. exists k. split; [lia|].
    unfold normalize in Hnorm. destruct (df_empty rows); [discriminate|].
    destruct (missing_columns rows); [|discriminate].
    destruct (negb (forallb timeStamp_ok rows)); [discriminate|].
    destruct (existsb _ rows); [discriminate|].
    injection Hnorm as <-. now rewrite map_raw_normalize.
  - apply pager_loop_returned in Hloop. subst df. discriminate.
Qed.

Lemma fetch_keeps_fetch_order_witness :
  exists k : nat,
    Z.of_nat k <= Z.max 0 5
    /\ map raw (map (normalize_row sample_wallet)
                  [transfer_in "100" "0"; transfer_in "50" "0"])
       = pages_from (one_full_then empty_page) 1 k.
Proof.
  apply (fetch_keeps_fetch_order (one_full_then empty_page) sample_wallet
           2 5).
  reflexivity.
Defined.

(* ------------------------------------------------------------------ *)
(** ** Further properties of the normaliser *)

(** X13.  The schema check is per column, not per record.  When the frame
    is not empty and no record at all has some required column, the
    normaliser raises the missing-columns error and names that column; when
    every required column occurs in at least one record, it never raises
    that error, even if single records lack fields. *)
Theorem missing_column_is_per_schema (address : string)
    (rows : list RawRecord) :
  df_empty rows = false ->
  (forall c, In c required -> has_column c rows = false ->
     exists missing,
       normalize address rows
       = inl (MissingColumns missing (columns rows) (hd [] rows))
       /\ In c missing)
  /\ ((forall c, In c required -> has_column c rows = true) ->
      forall missing cols sample,
        normalize address rows <> inl (MissingColumns missing cols sample)).
Proof.
  intros Hne. unfold normalize. rewrite Hne. split.
  - intros c Hreq Hcol.
    assert (Hin : In c (missing_columns rows)).
    { unfold missing_columns. apply filter_In. split; [assumption|].
      now rewrite Hcol. }
    destruct (missing_columns rows) as [|m ms]; [contradiction|].
    eexists. split; [reflexivity | exact Hin].
  - intros Hall missing cols sample.
    assert (Hnil : missing_columns rows = []).
    { unfold missing_columns.
      destruct (filter _ required) as [|m ms] eqn:Hf; [reflexivity|].
      assert (Hm : In m (m :: ms)) by now left.
      rewrite <- Hf in Hm. apply filter_In in Hm. destruct Hm as [Hreq Hm].
      rewrite (Hall m Hreq) in Hm. discriminate. }
    rewrite Hnil.
    destruct (negb (forallb timeStamp_ok rows)); [discriminate|].
    destruct (existsb _ rows); discriminate.
Qed.

Lemma missing_column_is_per_schema_witness :
  exists missing,
    normalize sample_wallet [record_without_hash]
    = inl (MissingColumns missing (columns [record_without_hash])
             (hd [] [record_without_hash]))
    /\ In "hash" missing.
Proof.
  apply (proj1 (missing_column_is_per_schema sample_wallet
                  [record_without_hash] eq_refl) "hash").
  - simpl. tauto.
  - reflexivity.
Defined.

(** X14.  One record whose [timeStamp] is missing or is not an integer
    literal as [int()] reads it makes the whole fetch fail: with all columns
    present, the normaliser raises and returns no table. *)
Theorem bad_timestamp_fails_whole_batch (address : string)
    (rows : list RawRecord) (r : RawRecord) :
  df_empty rows = false ->
  missing_columns rows = [] ->
  In r rows -> py_int (cell "timeStamp" r) = None ->
  normalize address rows = inl (ValueError "timeStamp").
Proof.
  intros Hne Hmiss Hin Hbad. unfold normalize. rewrite Hne, Hmiss.
  assert (Hall : forallb timeStamp_ok rows = false).
  { destruct (forallb timeStamp_ok rows) eqn:Hall; [|reflexivity].
    rewrite forallb_forall in Hall. specialize (Hall r Hin).
    unfold timeStamp_ok in Hall. rewrite Hbad in Hall. discriminate. }
  now rewrite Hall.
Qed.

Lemma bad_timestamp_fails_whole_batch_witness :
  normalize sample_wallet [transfer_in "5" "0"; record_bad_timestamp]
  = inl (ValueError "timeStamp").
Proof.
  apply (bad_timestamp_fails_whole_batch sample_wallet
           [transfer_in "5" "0"; record_bad_timestamp] record_bad_timestamp).
  - reflexivity.
  - reflexivity.
  - right. now left.
  - reflexivity.
Defined.







Lemma lower_char_idempotent (c : ascii) :
  lower_char (lower_char c) = lower_char c.
Proof. destruct c as [[] [] [] [] [] [] [] []]; reflexivity. Qed.

Lemma lower_idempotent (s : string) : lower (lower s) = lower s.
Proof.
  induction s as [|c s IH]; simpl; [reflexivity|].
  now rewrite lower_char_idempotent, IH.
Qed.

Lemma normalize_same_lower (a1 a2 : string) (rows : list RawRecord) :
  lower a1 = lower a2 -> normalize a1 rows = normalize a2 rows.
Proof.
  intros Hlow. unfold normalize.
  destruct (df_empty rows); [reflexivity|].
  destruct (missing_columns rows); [|reflexivity].
  destruct (negb (forallb timeStamp_ok rows)); [reflexivity|].
  destruct (existsb _ rows); [reflexivity|].
  do 2 f_equal. apply map_ext. intros r.
  unfold normalize_row, direction_of. now rewrite Hlow.
Qed.

(** X16.  The letter case of the queried address does not matter: two
    addresses with the same lower-case form, such as an address and its
    lower-case form, give the same fetch result, directions included. *)
Theorem fetch_address_case_insensitive (upstream : Upstream)
    (address : string) (offset max_pages : Z) :
  (forall other, lower other = lower address ->
     fetch_tokentx_cached upstream other offset max_pages
     = fetch_tokentx_cached upstream address offset max_pages)
  /\ fetch_tokentx_cached upstream (lower address) offset max_pages
     = fetch_tokentx_cached upstream address offset max_pages.
Proof.
  assert (Hsame : forall other, lower other = lower address ->
            fetch_tokentx_cached upstream other offset max_pages
            = fetch_tokentx_cached upstream address offset max_pages).
  { intros other Hlow. unfold fetch_tokentx_cached.
    destruct (pager upstream offset max_pages) as [[rows | df | e] | ];
      try reflexivity.
    f_equal. now apply normalize_same_lower. }
  split; [exact Hsame|]. apply Hsame, lower_idempotent.
Qed.

Lemma fetch_address_case_insensitive_witness :
  fetch_tokentx_cached (single_record (transfer_in "5" "0"))
    "0xE7C3D8C9A439FEDE00D2600032D5DB0BE71C3C29" 200 1
  = fetch_tokentx_cached (single_record (transfer_in "5" "0"))
      sample_wallet 200 1.
Proof.
  apply (proj1 (fetch_address_case_insensitive
                  (single_record (transfer_in "5" "0")) sample_wallet
                  200 1)).
  reflexivity.
Defined.

(* ------------------------------------------------------------------ *)
(** ** Sums of finite amounts *)

Lemma fold_fadd_fin (qs : list Q) :
  forall a, fold_left fadd (map Fin qs) (Fin a) = Fin (fold_left Qplus qs a).
Proof.
  induction qs as [|q qs IH]; intros a; [reflexivity|]. simpl. apply IH.
Qed.

Lemma fold_qplus (qs : list Q) :
  forall a, (fold_left Qplus qs a == a + qsum qs)%Q.
Proof.
  induction qs as [|q qs IH]; intros a; simpl.
  - ring.
  - rewrite IH. ring.
Qed.

Lemma finite_as_fin (l : list f64) :
  (forall x, In x l -> is_finite x = true) ->
  filter (fun x => negb (is_nan x)) l = map Fin (map qval l).
Proof.
  induction l as [|x l IH]; intros Hfin; [reflexivity|].
  assert (Hx : is_finite x = true) by (apply Hfin; now left).
  destruct x; try discriminate. simpl. f_equal.
  apply IH. intros y Hy. apply Hfin. now right.
Qed.

(** The sum of finite floats is the finite float of their sum. *)
Lemma fsum_finite (l : list f64) :
  (forall x, In x l -> is_finite x = true) ->
  exists q, fsum l = Fin q /\ (q == qsum (map qval l))%Q.
Proof.
  intros Hfin. unfold fsum. rewrite (finite_as_fin l Hfin), fold_fadd_fin.
  eexists. split; [reflexivity|]. rewrite fold_qplus. ring.
Qed.

Lemma three_transfers_finite (r : Row) :
  In r three_transfers -> is_finite (amount r) = true.
Proof. intros [<- | [<- | [<- | []]]]; reflexivity. Qed.

(* ------------------------------------------------------------------ *)
(** ** The period filter *)

Lemma fold_min_le (l : list Z) :
  forall a, fold_left Z.min l a <= a
            /\ forall x, In x l -> fold_left Z.min l a <= x.
Proof.
  induction l as [|y l IH]; intros a; simpl.
  - split; [lia | contradiction].
  - destruct (IH (Z.min a y)) as [Ha Hl]. split; [lia|].
    intros x [<- | Hx]; [lia | now apply Hl].
Qed.

Lemma fold_max_ge (l : list Z) :
  forall a, a <= fold_left Z.max l a
            /\ forall x, In x l -> x <= fold_left Z.max l a.
Proof.
  induction l as [|y l IH]; intros a; simpl.
  - split; [lia | contradiction].
  - destruct (IH (Z.max a y)) as [Ha Hl]. split; [lia|].
    intros x [<- | Hx]; [lia | now apply Hl].
Qed.

Lemma date_of_mono (a b : Z) : a <= b -> date_of a <= date_of b.
Proof. intros Hab. unfold date_of. apply Z.div_le_mono; lia. Qed.

(** Every row lies within the default period. *)
Lemma default_period_bounds (t : list Row) (lo hi : Z) :
  default_period t = Some (lo, hi) ->
  forall r, In r t -> lo <= date r <= hi.
Proof.
  destruct t as [|r0 t]; [discriminate|]. simpl.
  intros H r Hr. injection H as <- <-.
  unfold min_timeStamp, max_timeStamp.
  destruct (fold_min_le (map timeStamp t) (timeStamp r0)) as [Hmin0 Hmin].
  destruct (fold_max_ge (map timeStamp t) (timeStamp r0)) as [Hmax0 Hmax].
  change (date r) with (date_of (timeStamp r)).
  destruct Hr as [<- | Hr].
  - split; now apply date_of_mono.
  - assert (Hin : In (timeStamp r) (map timeStamp t)) by now apply in_map.
    split; apply date_of_mono; [now apply Hmin | now apply Hmax].
Qed.

Lemma filter_all {A : Type} (p : A -> bool) (l : list A) :
  (forall x, In x l -> p x = true) -> filter p l = l.
Proof.
  induction l as [|x l IH]; intros Hp; [reflexivity|]. simpl.
  rewrite Hp by now left. f_equal. apply IH.
  intros y Hy. apply Hp. now right.
Qed.

(** X18.  The period that the date input proposes (first day to last day
    of the fetched transfers) filters nothing out: with it, the filtered
    table is the fetched table.  Narrowing the period can only remove rows,
    and keeps the others in order. *)
Theorem default_period_keeps_every_row (t : list Row) (lo hi : Z) :
  default_period t = Some (lo, hi) ->
  filter_by_date lo hi t = t
  /\ lo <= hi
  /\ forall start_dt end_dt r,
       In r (filter_by_date start_dt end_dt t) <->
       In r t /\ start_dt <= date r <= end_dt.
Proof.
  intros Hper. split; [|split].
  - apply filter_all. intros r Hr.
    destruct (default_period_bounds t lo hi Hper r Hr).
    apply andb_true_iff. split; now apply Z.leb_le.
  - destruct t as [|r0 t]; [discriminate|].
    destruct (default_period_bounds (r0 :: t) lo hi Hper r0); [now left|].
    lia.
  - intros start_dt end_dt r. unfold filter_by_date.
    rewrite filter_In, andb_true_iff, !Z.leb_le. tauto.
Qed.

Lemma default_period_keeps_every_row_witness :
  filter_by_date 19676 19679 three_transfers = three_transfers.
Proof.
  apply (default_period_keeps_every_row three_transfers 19676 19679).
  reflexivity.
Defined.

(* ------------------------------------------------------------------ *)
(** ** Daily net flow *)

Lemma in_days_between (lo hi d : Z) :
  In d (days_between lo hi) <-> lo <= d <= hi.
Proof.
  unfold days_between. rewrite in_map_iff. split.
  - intros (i & <- & Hi). apply in_seq in Hi. lia.
  - intros Hd. exists (Z.to_nat (d - lo)). split; [lia|].
    apply in_seq. lia.
Qed.

Lemma NoDup_map_injective {A B : Type} (f : A -> B) (l : list A) :
  (forall x y, f x = f y -> x = y) -> NoDup l -> NoDup (map f l).
Proof.
  intros Hinj. induction 1 as [|x l Hx Hl IH]; simpl; constructor.
  - intros Hin. apply in_map_iff in Hin. destruct Hin as (y & Hy & Hin).
    apply Hinj in Hy. now subst y.
  - exact IH.
Qed.

Lemma days_between_NoDup (lo hi : Z) : NoDup (days_between lo hi).
Proof.
  unfold days_between. apply NoDup_map_injective.
  - intros i j Hij. lia.
  - apply seq_NoDup.
Qed.

Lemma daily_net_days (t : list Row) (lo hi : Z) :
  default_period t = Some (lo, hi) ->
  daily_net t
  = map (fun d => (d, fsum (map signed_amount
                             (filter (fun r => date r =? d) t))))
        (days_between lo hi).
Proof. intros Hper. unfold daily_net. now rewrite Hper. Qed.

(** X19.  The daily net-flow series has one entry for every calendar day
    from the first transfer to the last, also for the days in between on
    which nothing happened, whose entry is exactly 0; no day occurs
    twice. *)
Theorem daily_net_fills_gaps (t : list Row) (r1 r2 : Row) (d : Z) :
  In r1 t -> In r2 t -> date r1 <= d <= date r2 ->
  NoDup (map fst (daily_net t))
  /\ exists s,
       In (d, s) (daily_net t)
       /\ ((forall r, In r t -> date r <> d) -> s = Fin 0).
Proof.
  intros H1 H2 Hd.
  destruct (default_period t) as [[lo hi]|] eqn:Hper.
  2:{ destruct t; [contradiction | discriminate]. }
  pose proof (default_period_bounds t lo hi Hper) as Hb.
  rewrite (daily_net_days t lo hi Hper). split.
  - rewrite map_map. simpl. rewrite map_id. apply days_between_NoDup.
  - eexists. split.
    + apply in_map_iff. exists d. split; [reflexivity|].
      apply in_days_between. pose proof (Hb r1 H1). pose proof (Hb r2 H2).
      lia.
    + intros Hnone.
      assert (Hf : filter (fun r => date r =? d) t = []).
      { destruct (filter _ t) as [|r g] eqn:Hf; [reflexivity|]. exfalso.
        assert (Hr : In r (r :: g)) by now left.
        rewrite <- Hf in Hr. apply filter_In in Hr. destruct Hr as [Hr Hrd].
        apply Z.eqb_eq in Hrd. now apply (Hnone r Hr). }
      now rewrite Hf.
Qed.

Lemma daily_net_fills_gaps_witness :
  exists s,
    In (19677, s) (daily_net three_transfers)
    /\ ((forall r, In r three_transfers -> date r <> 19677) -> s = Fin 0).
Proof.
  apply (daily_net_fills_gaps three_transfers
           (normalize_row sample_wallet (transfer_in "100" "0"))
           (normalize_row sample_wallet (transfer_out_at "1700259200" "30"))
           19677).
  - now left.
  - right. right. now left.
  - vm_compute. split; discriminate.
Defined.

(* ------------------------------------------------------------------ *)
(** ** Daily IN/OUT: days *)

Lemma insert_asc_perm {A : Type} (leb : A -> A -> bool) (x : A) (l : list A) :
  Permutation (insert_asc leb x l) (x :: l).
Proof.
  induction l as [|y l IH]; simpl; [reflexivity|].
  destruct (leb x y); [reflexivity|]. rewrite IH. apply perm_swap.
Qed.

Lemma sort_unique_perm {A : Type} (dec : forall x y : A, {x = y} + {x <> y})
    (leb : A -> A -> bool) (l : list A) :
  Permutation (sort_unique dec leb l) (nodup dec l).
Proof.
  unfold sort_unique. induction (nodup dec l) as [|x l' IH]; simpl;
    [reflexivity|].
  rewrite insert_asc_perm. now constructor.
Qed.

Lemma sort_unique_In {A : Type} (dec : forall x y : A, {x = y} + {x <> y})
    (leb : A -> A -> bool) (l : list A) (x : A) :
  In x (sort_unique dec leb l) <-> In x l.
Proof.
  split; intros H.
  - apply (Permutation_in _ (sort_unique_perm dec leb l)) in H.
    now apply nodup_In in H.
  - apply (nodup_In dec) in H.
    now apply (Permutation_in _ (Permutation_sym (sort_unique_perm dec leb l))).
Qed.

Lemma sort_unique_NoDup {A : Type} (dec : forall x y : A, {x = y} + {x <> y})
    (leb : A -> A -> bool) (l : list A) :
  NoDup (sort_unique dec leb l).
Proof.
  apply (Permutation_NoDup (l := nodup dec l)).
  - symmetry. apply sort_unique_perm.
  - apply NoDup_nodup.
Qed.

Lemma insert_asc_sorted (x : Z) (l : list Z) :
  StronglySorted Z.le l -> StronglySorted Z.le (insert_asc Z.leb x l).
Proof.
  induction l as [|y l IH]; intros Hl; simpl.
  - repeat constructor.
  - apply StronglySorted_inv in Hl. destruct Hl as [Hl Hy].
    destruct (Z.leb_spec x y).
    + constructor; [now constructor|]. constructor; [assumption|].
      apply Forall_forall. intros z Hz. rewrite Forall_forall in Hy.
      specialize (Hy z Hz). lia.
    + constructor; [now apply IH|]. apply Forall_forall. intros z Hz.
      apply (Permutation_in _ (insert_asc_perm Z.leb x l)) in Hz.
      destruct Hz as [<- | Hz]; [lia|].
      rewrite Forall_forall in Hy. now apply Hy.
Qed.

Lemma sorted_distinct_strict (l : list Z) :
  StronglySorted Z.le l -> NoDup l -> StronglySorted Z.lt l.
Proof.
  induction l as [|x l IH]; intros Hs Hnd; [constructor|].
  apply StronglySorted_inv in Hs. destruct Hs as [Hs Hx].
  inversion Hnd as [|? ? Hnx Hnd']; subst.
  constructor; [now apply IH|]. apply Forall_forall. intros y Hy.
  rewrite Forall_forall in Hx. specialize (Hx y Hy).
  assert (x <> y) by (intros ->; contradiction). lia.
Qed.

Lemma sort_unique_dates_strict (l : list Z) :
  StronglySorted Z.lt (sort_unique Z.eq_dec Z.leb l).
Proof.
  apply sorted_distinct_strict; [|apply sort_unique_NoDup].
  unfold sort_unique. induction (nodup Z.eq_dec l) as [|x l' IH]; simpl.
  - constructor.
  - now apply insert_asc_sorted.
Qed.

Lemma filter_filter_and {A : Type} (p q : A -> bool) (l : list A) :
  filter p (filter q l) = filter (fun x => p x && q x) l.
Proof.
  induction l as [|x l IH]; simpl; [reflexivity|].
  destruct (q x); simpl; rewrite ?andb_true_r, ?andb_false_r;
    [destruct (p x)|]; now rewrite IH.
Qed.

Section FiniteTable.
Variable t : list Row.
Hypothesis Hfin : forall r, In r t -> is_finite (amount r) = true.

Let v := fun r : Row => qval (amount r).

(** A cell of the pivot is the finite sum of its group. *)
Lemma pivot_cell_finite (d : Z) (dir : Direction) :
  exists q,
    fill_value0 (group_sum t d dir) = Fin q
    /\ (q == qsum (map v (filter (fun r => Z.eqb (date r) d)
                            (filter (fun r => Direction_eqb (direction r) dir)
                                    t))))%Q
    /\ (filter (fun r => (date r =? d) && Direction_eqb (direction r) dir) t
        <> [] -> group_sum t d dir = Some (Fin q)).
Proof.
  rewrite filter_filter_and. unfold group_sum.
  set (g := filter _ t).
  destruct (fsum_finite (map amount g)) as (q & Hq & Heq).
  { intros x Hx. apply in_map_iff in Hx. destruct Hx as (r & <- & Hr).
    apply filter_In in Hr. now apply Hfin. }
  rewrite map_map in Heq. fold v in Heq.
  destruct g as [|r g'] eqn:Hg.
  - exists 0%Q. split; [reflexivity|]. split; [reflexivity | congruence].
  - rewrite Hq. exists q. split; [reflexivity|]. split; [exact Heq|].
    reflexivity.
Qed.

Lemma group_survives (r : Row) :
  In r t -> is_some (group_sum t (date r) (direction r)) = true.
Proof.
  intros Hr.
  destruct (pivot_cell_finite (date r) (direction r)) as (q & _ & _ & Hsome).
  rewrite Hsome; [reflexivity|]. intros Hnil.
  assert (Hin : In r (filter (fun r0 => (date r0 =? date r)
                                        && Direction_eqb (direction r0)
                                             (direction r)) t)).
  { apply filter_In. split; [assumption|]. rewrite Z.eqb_refl.
    destruct (direction r); reflexivity. }
  now rewrite Hnil in Hin.
Qed.

Lemma pivot_dates_finite :
  pivot_dates t = sort_unique Z.eq_dec Z.leb (map date t).
Proof.
  unfold pivot_dates. rewrite filter_all; [reflexivity|].
  intros r Hr. now apply group_survives.
Qed.

End FiniteTable.

(** X21.  On a table of finite amounts the daily IN/OUT frame has a row for
    a day exactly when some transfer falls on that day (days without
    transfers are absent, unlike in the daily net-flow series), and its
    days are strictly ascending. *)
Theorem daily_inout_days (t : list Row) :
  (forall r, In r t -> is_finite (amount r) = true) ->
  (forall d, (exists i o, In (d, i, o) (daily_inout t)) <->
             (exists r, In r t /\ date r = d))
  /\ StronglySorted Z.lt (map (fun x => fst (fst x)) (daily_inout t)).
Proof.
  intros Hfin. rewrite daily_inout_rows, (pivot_dates_finite t Hfin). split.
  - intros d. split.
    + intros (i & o & Hin). apply in_map_iff in Hin.
      destruct Hin as (d' & Heq & Hd). injection Heq as -> _ _.
      apply sort_unique_In, in_map_iff in Hd.
      destruct Hd as (r & Hr & Hin). now exists r.
    + intros (r & Hr & <-). do 2 eexists. apply in_map_iff.
      exists (date r). split; [reflexivity|].
      apply sort_unique_In. now apply in_map.
  - rewrite map_map. cbn [fst]. rewrite map_id.
    apply sort_unique_dates_strict.
Qed.

Lemma daily_inout_days_witness :
  StronglySorted Z.lt (map (fun x => fst (fst x)) (daily_inout three_transfers)).
Proof.
  apply (daily_inout_days three_transfers three_transfers_finite).
Defined.

(* ------------------------------------------------------------------ *)
(** ** Counterparty ranking: keys and cut *)

Lemma groupby_sum_keys (t : list Row) :
  map fst (groupby_sum t)
  = sort_unique string_dec String.leb (counterparty_cells t).
Proof. unfold groupby_sum. rewrite map_map. cbn [fst]. apply map_id. Qed.

Lemma firstn_NoDup {A : Type} (n : nat) (l : list A) :
  NoDup l -> NoDup (firstn n l).
Proof.
  intros Hnd. rewrite <- (firstn_skipn n l) in Hnd.
  now apply NoDup_app_remove_r in Hnd.
Qed.

Lemma sorted_app_order {A : Type} (R : A -> A -> Prop) (l1 l2 : list A) :
  StronglySorted R (l1 ++ l2) ->
  forall x y, In x l1 -> In y l2 -> R x y.
Proof.
  induction l1 as [|a l1 IH]; intros Hs x y Hx Hy; [contradiction|].
  simpl in Hs. apply StronglySorted_inv in Hs. destruct Hs as [Hs Ha].
  destruct Hx as [<- | Hx].
  - rewrite Forall_forall in Ha. apply Ha, in_or_app. now right.
  - now apply IH.
Qed.

(** X23.  No counterparty occurs twice in the ranking. *)
Theorem top_counterparties_keys_distinct
    (sort_values : list (string * f64) -> list (string * f64))
    (t : list Row) :
  sort_values_contract sort_values ->
  NoDup (map fst (top_counterparties sort_values t)).
Proof.
  intros Hsort. destruct (Hsort (groupby_sum t)) as [Hperm _].
  unfold top_counterparties. rewrite <- firstn_map. apply firstn_NoDup.
  apply (Permutation_NoDup (l := map fst (groupby_sum t))).
  - symmetry. now apply Permutation_map.
  - rewrite groupby_sum_keys. apply sort_unique_NoDup.
Qed.

Lemma top_counterparties_keys_distinct_witness :
  NoDup (map fst (top_counterparties insertion_sort_desc tied_table)).
Proof.
  apply (top_counterparties_keys_distinct insertion_sort_desc tied_table).
  exact insertion_sort_desc_contract.
Defined.

(** X24.  The cut at 20 keeps the largest groups: a counterparty that is
    left out has a sum that is not above the sum of any counterparty kept.
    With at most 20 distinct counterparties nobody is left out. *)
Theorem top_counterparties_keeps_the_largest
    (sort_values : list (string * f64) -> list (string * f64))
    (t : list Row) :
  sort_values_contract sort_values ->
  (forall kept left_out,
     In kept (top_counterparties sort_values t) ->
     In left_out (groupby_sum t) ->
     ~ In left_out (top_counterparties sort_values t) ->
     precedes (snd kept) (snd left_out) = true)
  /\ ((distinct_counterparties t <= 20)%nat ->
      Permutation (top_counterparties sort_values t) (groupby_sum t)).
Proof.
  intros Hsort. destruct (Hsort (groupby_sum t)) as [Hperm Hdesc].
  unfold top_counterparties. split.
  - intros kept left_out Hkept Hgroup Hout.
    apply (Permutation_in _ (Permutation_sym Hperm)) in Hgroup.
    rewrite <- (firstn_skipn 20 (sort_values (groupby_sum t))) in Hgroup.
    apply in_app_or in Hgroup. destruct Hgroup as [Hin | Hin];
      [contradiction|].
    unfold sorted_desc in Hdesc.
    rewrite <- (firstn_skipn 20 (sort_values (groupby_sum t))) in Hdesc.
    exact (sorted_app_order _ _ _ Hdesc kept left_out Hkept Hin).
  - intros Hfew. rewrite firstn_all2; [exact Hperm|].
    rewrite (Permutation_length Hperm), groupby_sum_length. exact Hfew.
Qed.

Lemma top_counterparties_keeps_the_largest_witness :
  Permutation (top_counterparties insertion_sort_desc tied_table)
              (groupby_sum tied_table).
Proof.
  apply (proj2 (top_counterparties_keeps_the_largest insertion_sort_desc
                  tied_table insertion_sort_desc_contract)).
  vm_compute. lia.
Defined.
